(** * InfiniRewards public client: the metadata decoding utilities

    A shallow embedding of [src/utils/stringUtils.ts] (the decoders
    [byteArrayToString], [isCairoByteArray], [decodeCairoByteArray],
    [decodeCairoByteArrayContent], [decodeCborMetadata], [hexToBytes] and
    the JSON replacer) and of [stringToUint8Array] from
    [src/services/contractService.ts].

    JavaScript values are an inductive type; a function that can raise
    returns a [completion]; the ECMAScript built-ins the decoders call
    ([BigInt], [parseInt], [String], [typeof], truthiness, the [in]
    operator) are written out below; the two npm packages (cbor2,
    starknet) and the platform codecs are fields of a [Host] record, so
    every theorem about the decoders holds whatever these do.  Console
    logging carries no behaviour and is left out.

    Value universe: a Number is integral, NaN or given by what is observed
    of it (an integral Number is printed in plain decimal, which is what
    ECMAScript does below 10^21, and text is read as an integer exactly);
    objects are plain data objects (own data properties over
    [Object.prototype]), arrays and byte arrays; there are no functions,
    symbols or cycles.  The messages of errors that the language itself
    raises are engine specific; only their kind matters below. *)

From Stdlib Require Import String Ascii ZArith List Lia Bool.
Import ListNotations.
Local Open Scope Z_scope.

(** ** Strings: sequences of UTF-16 code units *)

Definition jsstring := list Z.

Definition js (s : string) : jsstring :=
  map (fun a => Z.of_N (N_of_ascii a)) (list_ascii_of_string s).

Definition jsstring_eq_dec : forall a b : jsstring, {a = b} + {a <> b} :=
  list_eq_dec Z.eq_dec.

Definition str_eqb (a b : jsstring) : bool :=
  if jsstring_eq_dec a b then true else false.

Fixpoint startsWith (s prefix : jsstring) : bool :=
  match prefix, s with
  | [], _ => true
  | p :: prefix', c :: s' => (c =? p) && startsWith s' prefix'
  | _ :: _, [] => false
  end.

(** [s.slice(n)] for [0 <= n]. *)
Definition slice_from (n : nat) (s : jsstring) : jsstring := skipn n s.

(** ** Exceptions and fallible computations *)

Inductive errkind := Error | TypeError | RangeError | SyntaxError.

Record exn := Exn { kind : errkind; message : jsstring }.

Inductive completion (A : Type) : Type :=
| Return (a : A)
| Throw (e : exn).
Arguments Return {A} a.
Arguments Throw {A} e.

Definition bind {A B} (c : completion A) (k : A -> completion B) : completion B :=
  match c with
  | Return a => k a
  | Throw e => Throw e
  end.

(** [try { c } catch (e) { h e }] *)
Definition try_catch {A} (c : completion A) (h : exn -> completion A) : completion A :=
  match c with
  | Return a => Return a
  | Throw e => h e
  end.

Notation "x <- c ;; k" := (bind c (fun x => k))
  (at level 61, c at next level, right associativity).

(** ** Positional digits *)

(** Little-endian digits of [n >= 0] in [base >= 2]; [fuel] bounds the
    number of divisions. *)
Fixpoint digits_le_aux (fuel : nat) (base n : Z) : list Z :=
  match fuel with
  | O => [n]
  | S f => if n <? base then [n] else (n mod base) :: digits_le_aux f base (n / base)
  end.

Definition digits_le (base n : Z) : list Z :=
  digits_le_aux (Z.to_nat (Z.log2 n)) base n.

(** Big-endian digits, most significant first; one digit for zero. *)
Definition digits_be (base n : Z) : list Z := rev (digits_le base n).

(** The value of a big-endian digit sequence. *)
Definition of_digits_be (base : Z) (ds : list Z) : Z :=
  fold_left (fun acc d => acc * base + d) ds 0.

(** The character of a digit below 36: [0-9a-z]. *)
Definition digit_char (d : Z) : Z :=
  if d <? 10 then 48 + d else 87 + d.

(** The digit a character stands for, in any radix up to 36. *)
Definition digit_val (c : Z) : option Z :=
  if (48 <=? c) && (c <=? 57) then Some (c - 48)
  else if (97 <=? c) && (c <=? 122) then Some (c - 87)
  else if (65 <=? c) && (c <=? 90) then Some (c - 55)
  else None.

Definition is_digit (radix c : Z) : bool :=
  match digit_val c with
  | Some d => d <? radix
  | None => false
  end.

(** [n.toString(radix)] for a BigInt or an integral Number [n]. *)
Definition int_toString (radix n : Z) : jsstring :=
  if n <? 0 then 45 :: map digit_char (digits_be radix (- n))
  else map digit_char (digits_be radix n).

(** The value of a run of digit characters (each valid in [radix]). *)
Definition digits_value (radix : Z) (cs : jsstring) : Z :=
  fold_left (fun acc c => acc * radix + match digit_val c with Some d => d | None => 0 end) cs 0.

(** ** Values *)

Set Warnings "-register-all".

(** A Number: an integral one, NaN, or any other one (a fraction or an
    infinity), which is given by what the code can observe of it: the byte
    [ToUint8] stores for it and its text [String(x)]. *)
Inductive number :=
| Int (z : Z)
| NaN
| Other (byte : Z) (text : jsstring).

Inductive jsvalue :=
| VUndefined
| VNull
| VBool (b : bool)
| VNumber (n : number)
| VBigInt (z : Z)
| VString (s : jsstring)
| VArray (items : list jsvalue)
| VUint8Array (bytes : list Z)
| VObject (fields : list (jsstring * jsvalue)).

Inductive jstype := TUndefined | TObject | TBoolean | TNumber | TBigInt | TString.

Definition typeof (v : jsvalue) : jstype :=
  match v with
  | VUndefined => TUndefined
  | VNull => TObject
  | VBool _ => TBoolean
  | VNumber _ => TNumber
  | VBigInt _ => TBigInt
  | VString _ => TString
  | VArray _ | VUint8Array _ | VObject _ => TObject
  end.

Definition typeof_name (t : jstype) : jsstring :=
  match t with
  | TUndefined => js "undefined"
  | TObject => js "object"
  | TBoolean => js "boolean"
  | TNumber => js "number"
  | TBigInt => js "bigint"
  | TString => js "string"
  end.

Definition jstype_eqb (a b : jstype) : bool :=
  match a, b with
  | TUndefined, TUndefined | TObject, TObject | TBoolean, TBoolean
  | TNumber, TNumber | TBigInt, TBigInt | TString, TString => true
  | _, _ => false
  end.

(** ToBoolean: [!v] is [negb (truthy v)]. *)
Definition truthy (v : jsvalue) : bool :=
  match v with
  | VUndefined | VNull => false
  | VBool b => b
  | VNumber (Int z) => negb (z =? 0)
  | VNumber NaN => false
  | VNumber (Other _ _) => true
  | VBigInt z => negb (z =? 0)
  | VString s => match s with [] => false | _ => true end
  | VArray _ | VUint8Array _ | VObject _ => true
  end.

Definition isArray (v : jsvalue) : bool :=
  match v with VArray _ => true | _ => false end.

(** Own data properties of a plain object; the first binding of a key is
    the property. *)
Fixpoint lookup (k : jsstring) (fields : list (jsstring * jsvalue)) : option jsvalue :=
  match fields with
  | [] => None
  | (k', v) :: rest => if str_eqb k k' then Some v else lookup k rest
  end.

(** [v.k] for a key that [Object.prototype], [Array.prototype] and the typed
    array prototype do not define: an own property or [undefined]. *)
Definition get (k : jsstring) (v : jsvalue) : jsvalue :=
  match v with
  | VObject fields => match lookup k fields with Some x => x | None => VUndefined end
  | _ => VUndefined
  end.

(** [k in v] for such a key and a non-null object [v]. *)
Definition has_property (k : jsstring) (v : jsvalue) : bool :=
  match v with
  | VObject fields => match lookup k fields with Some _ => true | None => false end
  | _ => false
  end.

(** ** ECMAScript conversions *)

(** WhiteSpace and LineTerminator code units (StrWhiteSpaceChar). *)
Definition is_whitespace (c : Z) : bool :=
  existsb (Z.eqb c)
    [9; 10; 11; 12; 13; 32; 160; 5760; 8232; 8233; 8239; 8287; 12288; 65279]
  || ((8192 <=? c) && (c <=? 8202)).

Fixpoint trimStart (s : jsstring) : jsstring :=
  match s with
  | c :: s' => if is_whitespace c then trimStart s' else s
  | [] => []
  end.

Definition trim (s : jsstring) : jsstring := rev (trimStart (rev (trimStart s))).

(** The longest prefix of characters that are digits in [radix]. *)
Fixpoint take_digits (radix : Z) (s : jsstring) : jsstring :=
  match s with
  | c :: s' => if is_digit radix c then c :: take_digits radix s' else []
  | [] => []
  end.

Definition all_digits (radix : Z) (s : jsstring) : bool :=
  match s with
  | [] => false
  | _ => forallb (is_digit radix) s
  end.

(** [parseInt(s, radix)] on a string; [radix] is [None] when the argument
    is omitted (or 0) and [Some 16] in [hexToBytes].  The result is an
    integer, or [None] for NaN. *)
Definition parseInt_string (radix : option Z) (s : jsstring) : option Z :=
  let s1 := trimStart s in
  let negative := match s1 with c :: _ => c =? 45 | [] => false end in
  let s2 := match s1 with
            | c :: r => if (c =? 45) || (c =? 43) then r else s1
            | [] => s1
            end in
  let R := match radix with None => 10 | Some r => if r =? 0 then 10 else r end in
  let stripPrefix := (R =? 16) || match radix with None => true | Some r => r =? 0 end in
  if (R <? 2) || (36 <? R) then None
  else
    let hexPrefix := match s2 with
                     | c :: x :: _ => stripPrefix && (c =? 48) && ((x =? 120) || (x =? 88))
                     | _ => false
                     end in
    let R' := if hexPrefix then 16 else R in
    let s3 := if hexPrefix then skipn 2 s2 else s2 in
    match take_digits R' s3 with
    | [] => None
    | ds => Some ((if negative then -1 else 1) * digits_value R' ds)
    end.

(** A run of digits as an integer literal of the given radix. *)
Definition literal (radix : Z) (ds : jsstring) : option Z :=
  if all_digits radix ds then Some (digits_value radix ds) else None.

(** StringToBigInt: [None] when the text is no StringIntegerLiteral. *)
Definition StringToBigInt (s : jsstring) : option Z :=
  match trim s with
  | [] => Some 0
  | c :: r =>
      if c =? 45 then option_map Z.opp (literal 10 r)
      else if c =? 43 then literal 10 r
      else
        match r with
        | x :: r' =>
            if (c =? 48) && ((x =? 120) || (x =? 88)) then literal 16 r'
            else if (c =? 48) && ((x =? 111) || (x =? 79)) then literal 8 r'
            else if (c =? 48) && ((x =? 98) || (x =? 66)) then literal 2 r'
            else literal 10 (c :: r)
        | [] => literal 10 (c :: r)
        end
  end.

Definition Number_toString (n : number) : jsstring :=
  match n with
  | Int z => int_toString 10 z
  | NaN => js "NaN"
  | Other _ text => text
  end.

Definition comma : Z := 44.

(** ToString.  For an object this is ToPrimitive with hint string: a plain
    object answers ["[object Object]"] through [Object.prototype.toString]
    unless an own data property shadows [toString] (a data value is not
    callable, and [valueOf] then yields the object itself, so the
    conversion raises a TypeError); arrays and typed arrays join their
    elements with commas, [undefined] and [null] elements giving the empty
    string. *)
Fixpoint ToString (v : jsvalue) : completion jsstring :=
  match v with
  | VUndefined => Return (js "undefined")
  | VNull => Return (js "null")
  | VBool true => Return (js "true")
  | VBool false => Return (js "false")
  | VNumber n => Return (Number_toString n)
  | VBigInt z => Return (int_toString 10 z)
  | VString s => Return s
  | VArray items =>
      (fix join (l : list jsvalue) : completion jsstring :=
         match l with
         | [] => Return []
         | x :: rest =>
             s <- match x with
                  | VUndefined | VNull => Return []
                  | _ => ToString x
                  end ;;
             match rest with
             | [] => Return s
             | _ => r <- join rest ;; Return (s ++ comma :: r)
             end
         end) items
  | VUint8Array bytes =>
      Return ((fix join (l : list Z) : jsstring :=
                 match l with
                 | [] => []
                 | [b] => int_toString 10 b
                 | b :: rest => int_toString 10 b ++ comma :: join rest
                 end) bytes)
  | VObject fields =>
      match lookup (js "toString") fields with
      | Some _ => Throw (Exn TypeError (js "Cannot convert object to primitive value"))
      | None => Return (js "[object Object]")
      end
  end.

(** [String(v)] *)
Definition String_ (v : jsvalue) : completion jsstring := ToString v.

(** [v.toString()] for an object [v]: the inherited method, which is the
    string conversion, unless an own data property is in the way, and
    calling that is a TypeError. *)
Definition toString_method (v : jsvalue) : completion jsstring :=
  match v with
  | VObject fields =>
      match lookup (js "toString") fields with
      | Some _ => Throw (Exn TypeError (js "value.toString is not a function"))
      | None => Return (js "[object Object]")
      end
  | _ => ToString v
  end.

(** [BigInt(v)]: ToPrimitive with hint number, then by type. *)
Definition BigInt (v : jsvalue) : completion Z :=
  let of_text (s : jsstring) :=
    match StringToBigInt s with
    | Some z => Return z
    | None => Throw (Exn SyntaxError (js "Cannot convert text to a BigInt"))
    end in
  match v with
  | VUndefined | VNull => Throw (Exn TypeError (js "Cannot convert to a BigInt"))
  | VBool b => Return (if b then 1 else 0)
  | VNumber (Int z) => Return z
  | VNumber _ =>
      Throw (Exn RangeError
               (js "The number cannot be converted to a BigInt because it is not an integer"))
  | VBigInt z => Return z
  | VString s => of_text s
  | VArray _ | VUint8Array _ | VObject _ => s <- ToString v ;; of_text s
  end.

(** [parseInt(v)] with the radix omitted. *)
Definition parseInt (v : jsvalue) : completion (option Z) :=
  s <- ToString v ;; Return (parseInt_string None s).

(** ToUint8, the conversion a [Uint8Array] element assignment applies. *)
Definition toUint8 (z : Z) : Z := z mod 256.

Definition number_toUint8 (n : number) : Z :=
  match n with
  | Int z => toUint8 z
  | NaN => 0
  | Other byte _ => toUint8 byte
  end.

(** ['toString' in v] for a non-null object [v]: every object of the
    universe inherits [toString] from its prototype. *)
Definition has_toString (v : jsvalue) : bool :=
  match v with
  | VArray _ | VUint8Array _ | VObject _ => true
  | _ => false
  end.

Definition is_null (v : jsvalue) : bool :=
  match v with VNull => true | _ => false end.

(** ** The host: npm packages and platform codecs *)

Record Host := {
  (** [decode] of the cbor2 package. *)
  decodeCbor : list Z -> completion jsvalue;
  (** [shortString.decodeShortString] of the starknet package. *)
  decodeShortString : jsvalue -> completion jsstring;
  (** [new TextDecoder().decode(bytes)]; it raises where the platform has
      no [TextDecoder]. *)
  TextDecoder_decode : list Z -> completion jsstring;
  (** [new TextEncoder().encode(s)] *)
  TextEncoder_encode : jsstring -> list Z;
  (** [Number(s)] on a string. *)
  Number_string : jsstring -> number;
  (** [JSON.stringify(v, replacer)] *)
  JSON_stringify : jsvalue -> (jsstring -> jsvalue -> jsvalue) -> completion jsvalue
}.

(** ** src/services/contractService.ts *)

(** [uint8Array[i] = x] on an array of bytes: out of range it does nothing. *)
Fixpoint set_byte (i : nat) (x : Z) (a : list Z) : list Z :=
  match a, i with
  | [], _ => []
  | _ :: a', O => toUint8 x :: a'
  | y :: a', S i' => y :: set_byte i' x a'
  end.

(** [str.charCodeAt(i)]: the code unit at [i], or [None] for the NaN it
    answers out of range. *)
Definition charCodeAt (str : jsstring) (i : nat) : option Z := nth_error str i.

(** The loop [for (let i = i0; i < str.length; i++) uint8Array[i] = str.charCodeAt(i)],
    with [todo] iterations left. *)
Fixpoint stringToUint8Array_loop (str : jsstring) (todo i : nat) (uint8Array : list Z) : list Z :=
  match todo with
  | O => uint8Array
  | S todo' =>
      let uint8Array' :=
        match charCodeAt str i with
        | Some c => set_byte i c uint8Array
        | None => set_byte i 0 uint8Array
        end in
      stringToUint8Array_loop str todo' (S i) uint8Array'
  end.

Definition stringToUint8Array (str : jsstring) : list Z :=
  let uint8Array := repeat 0 (length str) in
  stringToUint8Array_loop str (length str) 0%nat uint8Array.

(** ** src/utils/stringUtils.ts *)

Definition jsonReplacer (key : jsstring) (v : jsvalue) : jsvalue :=
  match v with
  | VBigInt z => VString (int_toString 10 z)
  | _ => v
  end.

Definition isCairoByteArray (v : jsvalue) : bool :=
  jstype_eqb (typeof v) TObject
  && negb (is_null v)
  && has_property (js "data") v
  && isArray (get (js "data") v)
  && (has_property (js "pending_word") v || has_property (js "pending_word_len") v).

(** The loop of [hexToBytes] from position [i] on, over the characters
    still to read; [hex.substring(i, i + 2)] is the next two of them. *)
Fixpoint hexToBytes_loop (i : Z) (hex : jsstring) : completion (list Z) :=
  match hex with
  | [] => Return []
  | [a] =>
      match parseInt_string (Some 16) [a] with
      | None =>
          Throw (Exn Error (js "Invalid hex string at position " ++ int_toString 10 i
                              ++ js ": " ++ [a]))
      | Some byteValue => Return [toUint8 byteValue]
      end
  | a :: b :: rest =>
      match parseInt_string (Some 16) [a; b] with
      | None =>
          Throw (Exn Error (js "Invalid hex string at position " ++ int_toString 10 i
                              ++ js ": " ++ [a; b]))
      | Some byteValue =>
          bytes <- hexToBytes_loop (i + 2) rest ;;
          Return (toUint8 byteValue :: bytes)
      end
  end.

Definition pad_even (hex : jsstring) : jsstring :=
  if Nat.even (length hex) then hex else 48 :: hex.

Definition hexToBytes (hex : jsstring) : completion (list Z) :=
  hexToBytes_loop 0 (pad_even hex).

(** [/^(0x)?[0-9a-fA-F]+$/.test(s)] *)
Definition is_hex_string (s : jsstring) : bool :=
  match s with
  | 48 :: 120 :: rest => all_digits 16 rest
  | _ => all_digits 16 s
  end.

(** [String.fromCharCode] over the bytes, the fallback of [bytesToString]. *)
Definition fromCharCodes (bytes : list Z) : jsstring := bytes.

Section Decoders.

Variable H : Host.

Definition bytesToString (bytes : list Z) : jsstring :=
  match TextDecoder_decode H bytes with
  | Return s => s
  | Throw _ => fromCharCodes bytes
  end.

(** [BigInt(word).toString(16)], padded to an even length, as bytes. *)
Definition wordBytes (wordFelt : jsvalue) : completion (list Z) :=
  n <- BigInt wordFelt ;;
  hexToBytes (pad_even (int_toString 16 n)).

(** The block [if (pending_word && pending_word_len) { ... }] that both
    Cairo decoders share: [Some pendingBytes] when the slice
    [hexToBytes(pendingHex).slice(0, pendingWordLen)] is taken, [None]
    when a guard skips the pending word. *)
Definition pendingBytes (pending_word pending_word_len : jsvalue) : completion (option (list Z)) :=
  if truthy pending_word && truthy pending_word_len then
    pendingWordLen <- parseInt pending_word_len ;;
    match pendingWordLen with
    | Some n =>
        if 0 <? n then
          bytes <- wordBytes pending_word ;;
          Return (Some (firstn (Z.to_nat n) bytes))
        else Return None
    | None => Return None
    end
  else Return None.

(** The [for (const wordFelt of data)] loop of [decodeCairoByteArray],
    appending to [result]. *)
Fixpoint decodeWords (data : list jsvalue) (result : jsstring) : completion jsstring :=
  match data with
  | [] => Return result
  | wordFelt :: rest =>
      bytes <- wordBytes wordFelt ;;
      decodeWords rest (result ++ bytesToString bytes)
  end.

Definition items_of (v : jsvalue) : list jsvalue :=
  match v with VArray l => l | _ => [] end.

Definition decodeCairoByteArray (byteArray : jsvalue) : completion jsvalue :=
  if negb (isCairoByteArray byteArray) then Return VNull
  else
    try_catch
      (let data := get (js "data") byteArray in
       let pending_word := get (js "pending_word") byteArray in
       let pending_word_len := get (js "pending_word_len") byteArray in
       result <- decodeWords (items_of data) [] ;;
       pending <- pendingBytes pending_word pending_word_len ;;
       match pending with
       | Some pendingBytes => Return (VString (result ++ bytesToString pendingBytes))
       | None => Return (VString result)
       end)
      (fun error => Return VNull).

(** The [for (const wordFelt of data)] loop of
    [decodeCairoByteArrayContent], pushing onto [allBytes]. *)
Fixpoint collectWords (data : list jsvalue) (allBytes : list Z) : completion (list Z) :=
  match data with
  | [] => Return allBytes
  | wordFelt :: rest =>
      bytes <- wordBytes wordFelt ;;
      collectWords rest (allBytes ++ bytes)
  end.

(** The byte-collection phase of [decodeCairoByteArrayContent]: [allBytes]
    when the CBOR decoder is reached. *)
Definition collectBytes (byteArray : jsvalue) : completion (list Z) :=
  let data := get (js "data") byteArray in
  let pending_word := get (js "pending_word") byteArray in
  let pending_word_len := get (js "pending_word_len") byteArray in
  allBytes <- collectWords (items_of data) [] ;;
  pending <- pendingBytes pending_word pending_word_len ;;
  match pending with
  | Some pendingBytes => Return (allBytes ++ pendingBytes)
  | None => Return allBytes
  end.

Definition decodeCairoByteArrayContent (byteArray : jsvalue) : completion jsvalue :=
  if negb (isCairoByteArray byteArray) then Return VNull
  else
    try_catch
      (byteData <- collectBytes byteArray ;;
       let stringRepresentation := bytesToString byteData in
       try_catch
         (decodeCbor H byteData)
         (fun cborError => Return (VString stringRepresentation)))
      (fun error => Return VNull).

(** [typeof item === 'number' || (typeof item === 'string' && !isNaN(Number(item)))] *)
Definition isByteItem (item : jsvalue) : bool :=
  match item with
  | VNumber _ => true
  | VString s => match Number_string H s with NaN => false | _ => true end
  | _ => false
  end.

(** [Number(item)] as stored in a [Uint8Array], for an item that passed
    [isByteItem]. *)
Definition itemByte (item : jsvalue) : Z :=
  match item with
  | VNumber n => number_toUint8 n
  | VString s => number_toUint8 (Number_string H s)
  | _ => 0
  end.

(** What the [if]/[else if] chain of [decodeCborMetadata] leaves: the
    [bytes] to decode, or the value returned at once. *)
Inductive converted :=
| Bytes (bytes : option (list Z))
| Returned (v : jsvalue).

Definition convertInput (value : jsvalue) : completion converted :=
  match value with
  | VUint8Array bytes =>                        (* value instanceof Uint8Array *)
      Return (Bytes (Some bytes))
  | VArray items =>                             (* Array.isArray(value) *)
      let isValidByteArray := forallb isByteItem items in
      if isValidByteArray then Return (Bytes (Some (map itemByte items)))
      else Throw (Exn Error (js "Invalid byte array: contains non-numeric values"))
  | VString s =>                                (* typeof value === 'string' *)
      if is_hex_string s then
        let hexString := if startsWith s (js "0x") then slice_from 2 s else s in
        bytes <- hexToBytes hexString ;;
        Return (Bytes (Some bytes))
      else Return (Bytes (Some (TextEncoder_encode H s)))
  | _ =>
      if jstype_eqb (typeof value) TObject && negb (is_null value) then
        Return (Returned value)
      else
        Throw (Exn Error (js "Unsupported value type for CBOR decoding: "
                            ++ typeof_name (typeof value)))
  end.

Definition decodeCborMetadata (value : jsvalue) : completion jsvalue :=
  if negb (truthy value) then Return VNull
  else
    try_catch
      (c <- convertInput value ;;
       match c with
       | Returned v => Return v
       | Bytes None => Throw (Exn Error (js "Failed to convert input to bytes"))
       | Bytes (Some bytes) => decodeCbor H bytes
       end)
      (fun error =>
         Throw (Exn Error (js "CBOR decoding error: " ++ message error))).

(** [if (isCairoByteArray(v)) { const cairoString =
    decodeCairoByteArrayContent(v); if (cairoString) return cairoString; }]:
    [Some] is the early return. *)
Definition tryCairoContent (v : jsvalue) : completion (option jsvalue) :=
  if isCairoByteArray v then
    cairoString <- decodeCairoByteArrayContent v ;;
    if truthy cairoString then Return (Some cairoString) else Return None
  else Return None.

Definition byteArrayToString (value : jsvalue) : completion jsvalue :=
  if negb (truthy value) then Return (VString [])
  else if jstype_eqb (typeof value) TString then Return value
  else if jstype_eqb (typeof value) TObject && has_toString value then
    s <- toString_method value ;; Return (VString s)
  else
    try_catch
      (s <- decodeShortString H value ;; Return (VString s))
      (fun shortStringError =>
         try_catch
           (decodedValue <- decodeCborMetadata value ;;
            early <- tryCairoContent decodedValue ;;
            match early with
            | Some cairoString => Return cairoString
            | None =>
                if jstype_eqb (typeof decodedValue) TString then Return decodedValue
                else JSON_stringify H decodedValue jsonReplacer
            end)
           (fun cborError =>
              early <- (if jstype_eqb (typeof value) TObject
                        then tryCairoContent value else Return None) ;;
              match early with
              | Some cairoString => Return cairoString
              | None => s <- String_ value ;; Return (VString s)
              end)).

End Decoders.

(** ** A reference host

    One host to run the decoders on: UTF-8 as the Encoding standard
    defines it, the definite-length items of CBOR (RFC 8949) and
    [decodeShortString] as starknet.js implements it.  The theorems below
    quantify over every host; this one instantiates them on concrete
    inputs. *)

Module Reference.

(** *** UTF-8 *)

Record utf8_state := {
  code_point : Z; bytes_needed : Z; bytes_seen : Z;
  lower_boundary : Z; upper_boundary : Z
}.

Definition utf8_start : utf8_state :=
  {| code_point := 0; bytes_needed := 0; bytes_seen := 0;
     lower_boundary := 128; upper_boundary := 191 |}.

Definition in_range (lo hi b : Z) : bool := (lo <=? b) && (b <=? hi).

(** A byte read when no sequence is open; [None] in the output is a
    decoding error. *)
Definition utf8_lead (b : Z) : utf8_state * list (option Z) :=
  if in_range 0 127 b then (utf8_start, [Some b])
  else if in_range 194 223 b then
    ({| code_point := Z.land b 31; bytes_needed := 1; bytes_seen := 0;
        lower_boundary := 128; upper_boundary := 191 |}, [])
  else if in_range 224 239 b then
    ({| code_point := Z.land b 15; bytes_needed := 2; bytes_seen := 0;
        lower_boundary := if b =? 224 then 160 else 128;
        upper_boundary := if b =? 237 then 159 else 191 |}, [])
  else if in_range 240 244 b then
    ({| code_point := Z.land b 7; bytes_needed := 3; bytes_seen := 0;
        lower_boundary := if b =? 240 then 144 else 128;
        upper_boundary := if b =? 244 then 143 else 191 |}, [])
  else (utf8_start, [None]).

Definition utf8_step (st : utf8_state) (b : Z) : utf8_state * list (option Z) :=
  if bytes_needed st =? 0 then utf8_lead b
  else if negb (in_range (lower_boundary st) (upper_boundary st) b) then
    let '(st', out) := utf8_lead b in (st', None :: out)
  else
    let cp := Z.lor (Z.shiftl (code_point st) 6) (Z.land b 63) in
    if bytes_seen st + 1 =? bytes_needed st then (utf8_start, [Some cp])
    else ({| code_point := cp; bytes_needed := bytes_needed st;
             bytes_seen := bytes_seen st + 1;
             lower_boundary := 128; upper_boundary := 191 |}, []).

Fixpoint utf8_run (st : utf8_state) (bytes : list Z) : list (option Z) :=
  match bytes with
  | [] => if bytes_needed st =? 0 then [] else [None]
  | b :: rest => let '(st', out) := utf8_step st b in out ++ utf8_run st' rest
  end.

(** A code point as UTF-16 code units. *)
Definition utf16_units (cp : Z) : jsstring :=
  if cp <? 65536 then [cp]
  else [55296 + (cp - 65536) / 1024; 56320 + (cp - 65536) mod 1024].

(** [new TextDecoder().decode(bytes)]: errors become U+FFFD and a leading
    byte order mark is dropped. *)
Definition utf8_decode (bytes : list Z) : jsstring :=
  let bytes' := match bytes with 239 :: 187 :: 191 :: rest => rest | _ => bytes end in
  flat_map (fun o => match o with Some cp => utf16_units cp | None => [65533] end)
           (utf8_run utf8_start bytes').

(** The fatal decoder cbor2 reads text strings with. *)
Definition utf8_decode_fatal (bytes : list Z) : option jsstring :=
  let out := utf8_run utf8_start bytes in
  if forallb (fun o => match o with Some _ => true | None => false end) out
  then Some (flat_map (fun o => match o with Some cp => utf16_units cp | None => [] end) out)
  else None.

(** The scalar values of a string; a lone surrogate reads as U+FFFD. *)
Fixpoint code_points (s : jsstring) : list Z :=
  match s with
  | [] => []
  | c :: rest =>
      if in_range 55296 56319 c then
        match rest with
        | d :: rest' =>
            if in_range 56320 57343 d
            then (65536 + (c - 55296) * 1024 + (d - 56320)) :: code_points rest'
            else 65533 :: code_points rest
        | [] => [65533]
        end
      else if in_range 56320 57343 c then 65533 :: code_points rest
      else c :: code_points rest
  end.

Definition utf8_bytes (cp : Z) : list Z :=
  if cp <? 128 then [cp]
  else if cp <? 2048 then [192 + cp / 64; 128 + cp mod 64]
  else if cp <? 65536 then [224 + cp / 4096; 128 + (cp / 64) mod 64; 128 + cp mod 64]
  else [240 + cp / 262144; 128 + (cp / 4096) mod 64; 128 + (cp / 64) mod 64; 128 + cp mod 64].

(** [new TextEncoder().encode(s)] *)
Definition utf8_encode (s : jsstring) : list Z := flat_map utf8_bytes (code_points s).

(** *** CBOR *)

Definition take_bytes (n : Z) (bytes : list Z) : option (list Z * list Z) :=
  if Z.of_nat (length bytes) <? n then None
  else Some (firstn (Z.to_nat n) bytes, skipn (Z.to_nat n) bytes).

(** The argument of an item head: the additional information itself, or
    the 1, 2, 4 or 8 bytes that follow.  Indefinite lengths are outside
    this fragment. *)
Definition cbor_argument (info : Z) (bytes : list Z) : option (Z * list Z) :=
  if info <? 24 then Some (info, bytes)
  else if info <=? 27 then
    match take_bytes (2 ^ (info - 24)) bytes with
    | Some (arg, rest) => Some (of_digits_be 256 arg, rest)
    | None => None
    end
  else None.

(** An integer: a Number when it is a safe integer, a BigInt otherwise. *)
Definition cbor_int (n : Z) : jsvalue :=
  if Z.abs n <? 2 ^ 53 then VNumber (Int n) else VBigInt n.

(** [o[k] = v] on the properties read so far. *)
Fixpoint set_field (k : jsstring) (v : jsvalue) (fields : list (jsstring * jsvalue))
  : list (jsstring * jsvalue) :=
  match fields with
  | [] => [(k, v)]
  | (k', v') :: rest =>
      if str_eqb k k' then (k, v) :: rest else (k', v') :: set_field k v rest
  end.

(** One data item and the bytes after it.  Integers, byte and text
    strings, arrays, maps with text keys and the simple values false,
    true, null and undefined are read; tags, floats and maps with other
    keys decode to values outside the universe and are reported as
    failures here. *)
Fixpoint cbor_item (fuel : nat) (bytes : list Z) : option (jsvalue * list Z) :=
  match fuel, bytes with
  | O, _ | _, [] => None
  | S fuel', b :: bytes1 =>
      let major := b / 32 in
      let info := b mod 32 in
      if major =? 7 then
        if info =? 20 then Some (VBool false, bytes1)
        else if info =? 21 then Some (VBool true, bytes1)
        else if info =? 22 then Some (VNull, bytes1)
        else if info =? 23 then Some (VUndefined, bytes1)
        else None
      else
        match cbor_argument info bytes1 with
        | None => None
        | Some (n, bytes2) =>
            if major =? 0 then Some (cbor_int n, bytes2)
            else if major =? 1 then Some (cbor_int (-1 - n), bytes2)
            else if major =? 2 then
              match take_bytes n bytes2 with
              | Some (data, rest) => Some (VUint8Array data, rest)
              | None => None
              end
            else if major =? 3 then
              match take_bytes n bytes2 with
              | Some (data, rest) =>
                  match utf8_decode_fatal data with
                  | Some s => Some (VString s, rest)
                  | None => None
                  end
              | None => None
              end
            else if Z.of_nat (length bytes2) <? n then None
            else if major =? 4 then
              (fix items (count : nat) (bs : list Z) (acc : list jsvalue) :=
                 match count with
                 | O => Some (VArray (rev acc), bs)
                 | S count' =>
                     match cbor_item fuel' bs with
                     | Some (v, bs') => items count' bs' (v :: acc)
                     | None => None
                     end
                 end) (Z.to_nat n) bytes2 []
            else if major =? 5 then
              (fix pairs (count : nat) (bs : list Z) (acc : list (jsstring * jsvalue)) :=
                 match count with
                 | O => Some (VObject acc, bs)
                 | S count' =>
                     match cbor_item fuel' bs with
                     | Some (VString k, bs') =>
                         match cbor_item fuel' bs' with
                         | Some (v, bs'') => pairs count' bs'' (set_field k v acc)
                         | None => None
                         end
                     | _ => None
                     end
                 end) (Z.to_nat n) bytes2 []
            else None
        end
  end.

(** [decode(bytes)]: one item and nothing after it. *)
Definition cbor_decode (bytes : list Z) : completion jsvalue :=
  match cbor_item (S (length bytes)) bytes with
  | Some (v, []) => Return v
  | Some (_, _ :: _) => Throw (Exn Error (js "Extra data in input"))
  | None => Throw (Exn Error (js "Invalid or truncated CBOR data"))
  end.

(** *** starknet.js short strings *)

(** [s.replace(/.{2}/g, hex => String.fromCharCode(parseInt(hex, 16)))]
    on a string of hex digits: an odd last digit stays as it is. *)
Fixpoint hex_pairs_to_chars (s : jsstring) : jsstring :=
  match s with
  | a :: b :: rest =>
      match parseInt_string (Some 16) [a; b] with
      | Some c => c :: hex_pairs_to_chars rest
      | None => 0 :: hex_pairs_to_chars rest
      end
  | _ => s
  end.

(** [/^0x[0-9a-f]*$/i] *)
Definition isHex (s : jsstring) : bool :=
  match s with
  | 48 :: x :: rest => ((x =? 120) || (x =? 88)) && forallb (is_digit 16) rest
  | _ => false
  end.

Definition short_string (v : jsvalue) : completion jsstring :=
  str <- ToString v ;;
  if negb (forallb (in_range 0 127) str) then
    Throw (Exn Error (str ++ js " is not an ASCII string"))
  else if isHex str then Return (hex_pairs_to_chars (skipn 2 str))
  else if forallb (is_digit 10) str then
    n <- BigInt v ;;
    Return (hex_pairs_to_chars (int_toString 16 n))
  else Throw (Exn Error (str ++ js " is not Hex or decimal")).

(** *** Numbers from text and JSON text *)

(** [Number(s)] where the text is an integer literal (decimal with an
    optional sign, or hexadecimal, octal or binary) or blank; every other
    text reads as NaN here: a text with a fraction or an exponent is not
    evaluated. *)
Definition number_of_string (s : jsstring) : number :=
  match StringToBigInt s with
  | Some z => Int z
  | None => NaN
  end.

Definition hex4 (c : Z) : jsstring :=
  let h := int_toString 16 c in
  repeat 48 (4 - length h) ++ h.

(** QuoteJSONString without the quotes: the escapes of JSON. *)
Fixpoint json_escape (s : jsstring) : jsstring :=
  match s with
  | [] => []
  | c :: rest =>
      if c =? 8 then js "\b" ++ json_escape rest
      else if c =? 9 then js "\t" ++ json_escape rest
      else if c =? 10 then js "\n" ++ json_escape rest
      else if c =? 12 then js "\f" ++ json_escape rest
      else if c =? 13 then js "\r" ++ json_escape rest
      else if c =? 34 then [92; 34] ++ json_escape rest
      else if c =? 92 then [92; 92] ++ json_escape rest
      else if c <? 32 then js "\u" ++ hex4 c ++ json_escape rest
      else if in_range 55296 56319 c then
        match rest with
        | d :: rest' =>
            if in_range 56320 57343 d then c :: d :: json_escape rest'
            else js "\u" ++ hex4 c ++ json_escape rest
        | [] => js "\u" ++ hex4 c
        end
      else if in_range 56320 57343 c then js "\u" ++ hex4 c ++ json_escape rest
      else c :: json_escape rest
  end.

Definition json_quote (s : jsstring) : jsstring := 34 :: json_escape s ++ [34].

Fixpoint join_with (sep : jsstring) (parts : list jsstring) : jsstring :=
  match parts with
  | [] => []
  | [p] => p
  | p :: rest => p ++ sep ++ join_with sep rest
  end.

(** SerializeJSONProperty: [None] is [undefined]; [fuel] bounds the
    nesting, as the call stack does.  Properties are written in list
    order. *)
Fixpoint json_property (fuel : nat) (replacer : jsstring -> jsvalue -> jsvalue)
         (key : jsstring) (v : jsvalue) : completion (option jsstring) :=
  match fuel with
  | O => Throw (Exn RangeError (js "Maximum call stack size exceeded"))
  | S fuel' =>
      match replacer key v with
      | VUndefined => Return None
      | VNull => Return (Some (js "null"))
      | VBool true => Return (Some (js "true"))
      | VBool false => Return (Some (js "false"))
      | VNumber (Int z) => Return (Some (int_toString 10 z))
      | VNumber NaN => Return (Some (js "null"))
      | VNumber (Other _ text) =>
          Return (Some (if str_eqb text (js "Infinity") || str_eqb text (js "-Infinity")
                        then js "null" else text))
      | VBigInt _ => Throw (Exn TypeError (js "Do not know how to serialize a BigInt"))
      | VString s => Return (Some (json_quote s))
      | VArray items =>
          parts <- (fix elements (i : Z) (l : list jsvalue) : completion (list jsstring) :=
                      match l with
                      | [] => Return []
                      | x :: rest =>
                          o <- json_property fuel' replacer (int_toString 10 i) x ;;
                          ps <- elements (i + 1) rest ;;
                          Return (match o with Some t => t | None => js "null" end :: ps)
                      end) 0 items ;;
          Return (Some (js "[" ++ join_with [comma] parts ++ js "]"))
      | VUint8Array bytes =>
          parts <- (fix elements (i : Z) (l : list Z) : completion (list jsstring) :=
                      match l with
                      | [] => Return []
                      | x :: rest =>
                          o <- json_property fuel' replacer (int_toString 10 i) (VNumber (Int x)) ;;
                          ps <- elements (i + 1) rest ;;
                          Return (match o with
                                  | Some t => [json_quote (int_toString 10 i) ++ js ":" ++ t]
                                  | None => []
                                  end ++ ps)
                      end) 0 bytes ;;
          Return (Some (js "{" ++ join_with [comma] parts ++ js "}"))
      | VObject fields =>
          parts <- (fix members (l : list (jsstring * jsvalue)) : completion (list jsstring) :=
                      match l with
                      | [] => Return []
                      | (k, x) :: rest =>
                          o <- json_property fuel' replacer k x ;;
                          ps <- members rest ;;
                          Return (match o with
                                  | Some t => [json_quote k ++ js ":" ++ t]
                                  | None => []
                                  end ++ ps)
                      end) fields ;;
          Return (Some (js "{" ++ join_with [comma] parts ++ js "}"))
      end
  end.

Definition json_stringify (v : jsvalue) (replacer : jsstring -> jsvalue -> jsvalue)
  : completion jsvalue :=
  o <- json_property 1000 replacer [] v ;;
  Return (match o with Some t => VString t | None => VUndefined end).

Definition host : Host := {|
  decodeCbor := cbor_decode;
  decodeShortString := short_string;
  TextDecoder_decode := fun bytes => Return (utf8_decode bytes);
  TextEncoder_encode := utf8_encode;
  Number_string := number_of_string;
  JSON_stringify := json_stringify
|}.

End Reference.

(** ** The vocabulary of the specification and of the proofs *)

(** A chain byte array as the specification describes it: a mapping with a
    [data] field that is a sequence and with a [pending_word] or a
    [pending_word_len] field. *)
Definition CairoByteArrayShape (v : jsvalue) : Prop :=
  exists fields items,
    v = VObject fields
    /\ lookup (js "data") fields = Some (VArray items)
    /\ (lookup (js "pending_word") fields <> None
        \/ lookup (js "pending_word_len") fields <> None).

(** The record [{ data, pending_word, pending_word_len }]. *)
Definition byteArrayRecord (data : list jsvalue) (pending_word pending_word_len : jsvalue) : jsvalue :=
  VObject [(js "data", VArray data);
           (js "pending_word", pending_word);
           (js "pending_word_len", pending_word_len)].

(** The bytes of the big-endian rendering of a word [w >= 0]: its base-256
    digits, most significant first, one byte for zero. *)
Definition be_bytes (w : Z) : list Z := digits_be 256 w.

(** The two hex digits of a byte, most significant first. *)
Definition nibbles_be (b : Z) : list Z := [b / 16; b mod 16].

(** A word that fills its 31 bytes: the first of them is not zero. *)
Definition full_word (w : Z) : Prop := 256 ^ 30 <= w < 256 ^ 31.

(** The integers that [BigInt] reads from the words of [data]. *)
Definition words_are (data : list jsvalue) (ws : list Z) : Prop :=
  Forall2 (fun wordFelt w => BigInt wordFelt = Return w /\ 0 <= w) data ws.

(** Little-endian digits padded with a zero to an even count. *)
Definition pad_le (ds : list Z) : list Z :=
  if Nat.even (length ds) then ds else ds ++ [0].

(** The digits 0 to 15. *)
Definition hex_range : list Z := map Z.of_nat (seq 0 16).

(** The [catch] block of [decodeCborMetadata]. *)
Definition rethrow (error : exn) : completion jsvalue :=
  Throw (Exn Error (js "CBOR decoding error: " ++ message error)).

(** The bytes that the hex digits 68656c6c6f stand for. *)
Definition hello_bytes : list Z := [104; 101; 108; 108; 111].

(** No mapping that string conversion reaches (the value itself or an
    element of nested arrays) has an own [toString] property. *)
Fixpoint plain (v : jsvalue) : bool :=
  match v with
  | VArray items => forallb plain items
  | VObject fields => match lookup (js "toString") fields with Some _ => false | None => true end
  | _ => true
  end.

(** A non-null object: a mapping, an array or a typed array. *)
Definition is_object (v : jsvalue) : bool :=
  jstype_eqb (typeof v) TObject && negb (is_null v).

(** ** More of the code: the service's metadata step and the vocabulary of
    its properties *)

(** [try { return decode(stringToUint8Array(item)) } catch { return
    { metadata: item } }]: the step that [getCollectibleDetails] and
    [getTokenData] of [src/services/contractService.ts] apply to a metadata
    field, on a field that is a string, as [stringToUint8Array] declares
    and the ABI type ByteArray gives. *)
Definition decodeMetadataField (H : Host) (item : jsstring) : jsvalue :=
  match decodeCbor H (stringToUint8Array item) with
  | Return decoded => decoded
  | Throw _ => VObject [(js "metadata", VString item)]
  end.

(** [decode(stringToUint8Array(result[2]))] of [getPointsDetails], which has
    no fallback. *)
Definition decodePointsMetadata (H : Host) (item : jsstring) : completion jsvalue :=
  decodeCbor H (stringToUint8Array item).

(** The value of a hex digit character, 0 for any other character. *)
Definition hexval (c : Z) : Z :=
  match digit_val c with
  | Some d => d
  | None => 0
  end.

(** The bytes that the pairs of an even run of hex digits spell. *)
Fixpoint pair_bytes (s : jsstring) : list Z :=
  match s with
  | a :: b :: rest => (hexval a * 16 + hexval b) :: pair_bytes rest
  | _ => []
  end.

(** The characters [0-9a-fA-F]. *)
Definition hex_chars : jsstring := js "0123456789abcdefABCDEF".

(** Two lowercase hex digits for each byte. *)
Definition bytesToHex (bytes : list Z) : jsstring :=
  map digit_char (flat_map nibbles_be bytes).

(** Bytes as a packed word has them when read back: no leading zero byte,
    and at least one byte. *)
Definition canonical_bytes (bytes : list Z) : Prop :=
  Forall (fun b => 0 <= b < 256) bytes
  /\ match bytes with
     | [] => False
     | b :: rest => b <> 0 \/ rest = []
     end.

(** A platform without [TextDecoder], the case the fallback loop of
    [bytesToString] is written for; the rest is the reference host. *)
Definition legacy_host : Host := {|
  decodeCbor := Reference.cbor_decode;
  decodeShortString := Reference.short_string;
  TextDecoder_decode := fun _ => Throw (Exn Error (js "TextDecoder is not defined"));
  TextEncoder_encode := Reference.utf8_encode;
  Number_string := Reference.number_of_string;
  JSON_stringify := Reference.json_stringify
|}.

(** * Properties *)

(** ** [stringToUint8Array] *)

Module StringBytes.

Lemma set_byte_app (done : list Z) (x y : Z) (rest : list Z) :
  set_byte (length done) x (done ++ y :: rest) = done ++ toUint8 x :: rest.
Proof.
  induction done as [|d done IH]; simpl; [reflexivity|].
  now rewrite IH.
Qed.

Lemma firstn_snoc (str : jsstring) (i : nat) (c : Z) :
  nth_error str i = Some c ->
  firstn (S i) str = firstn i str ++ [c].
Proof.
  revert i; induction str as [|a str IH]; intros [|i] Hc; simpl in *; try discriminate.
  - now inversion Hc.
  - now rewrite (IH i Hc).
Qed.

(** The loop invariant: the first [i] cells hold the low bytes of the first
    [i] code units and the [todo] cells after them are still zero. *)
Lemma loop_invariant (str : jsstring) (todo : nat) :
  forall i : nat,
    (i + todo = length str)%nat ->
    stringToUint8Array_loop str todo i
      (map toUint8 (firstn i str) ++ repeat 0 todo)
    = map toUint8 str.
Proof.
  induction todo as [|todo IH]; intros i Hlen; simpl.
  - rewrite app_nil_r, firstn_all2 by lia. reflexivity.
  - unfold charCodeAt.
    destruct (nth_error str i) as [c|] eqn:Hc.
    + replace i with (length (map toUint8 (firstn i str))) at 2
        by (rewrite length_map, length_firstn; lia).
      rewrite set_byte_app.
      specialize (IH (S i) ltac:(lia)).
      rewrite (firstn_snoc _ _ _ Hc), map_app in IH. simpl in IH.
      rewrite <- app_assoc in IH. exact IH.
    + apply nth_error_None in Hc. lia.
Qed.

Lemma stringToUint8Array_map (str : jsstring) :
  stringToUint8Array str = map toUint8 str.
Proof.
  unfold stringToUint8Array.
  exact (loop_invariant str (length str) 0%nat eq_refl).
Qed.

End StringBytes.

(** C10: [stringToUint8Array(s)] has exactly [s.length] elements and its
    [i]-th element is [s.charCodeAt(i)] modulo 256: a code unit above 255 is
    cut to its low eight bits, neither rejected nor UTF-8 encoded. *)
Theorem stringToUint8Array_low_bytes (s : jsstring) :
  length (stringToUint8Array s) = length s
  /\ stringToUint8Array s = map (fun c => c mod 256) s
  /\ forall (i : nat) (c : Z),
       charCodeAt s i = Some c ->
       nth_error (stringToUint8Array s) i = Some (c mod 256).
Proof.
  rewrite StringBytes.stringToUint8Array_map.
  split; [apply length_map|]. split; [reflexivity|].
  intros i c Hc. unfold charCodeAt in Hc.
  destruct (nth_error s i) as [c'|] eqn:Hi; [|discriminate].
  inversion Hc; subst c'.
  now rewrite nth_error_map, Hi.
Qed.

(** The euro sign (code unit 8364) becomes the byte 172 = 8364 mod 256. *)
Lemma stringToUint8Array_low_bytes_witness :
  nth_error (stringToUint8Array [72; 8364; 105]) 1 = Some 172.
Proof.
  exact (proj2 (proj2 (stringToUint8Array_low_bytes [72; 8364; 105])) 1%nat 8364 eq_refl).
Defined.

(** ** Shape detection *)

Lemma lookup_present (k : jsstring) (fields : list (jsstring * jsvalue)) :
  (match lookup k fields with Some _ => true | None => false end) = true
  <-> lookup k fields <> None.
Proof.
  destruct (lookup k fields); split; intro Hp; try reflexivity; try discriminate.
  now elim Hp.
Qed.

(** C7: [isCairoByteArray(v)] is true exactly when [v] is a non-null mapping
    with a [data] field whose value is an array and with a [pending_word] or
    a [pending_word_len] field. *)
Theorem isCairoByteArray_iff_shape (v : jsvalue) :
  isCairoByteArray v = true <-> CairoByteArrayShape v.
Proof.
  unfold isCairoByteArray, CairoByteArrayShape. split.
  - intro Hv.
    destruct v as [| | | | | | | |fields]; simpl in Hv; try discriminate.
    destruct (lookup (js "data") fields) as [d|] eqn:Hd; simpl in Hv; [|discriminate].
    destruct d as [| | | | | |items| |]; simpl in Hv; try discriminate.
    exists fields, items. split; [reflexivity|]. split; [exact Hd|].
    apply orb_true_iff in Hv. destruct Hv as [Hp|Hp]; [left|right];
      now apply lookup_present.
  - intros (fields & items & -> & Hd & Hp). simpl. rewrite Hd. simpl.
    apply orb_true_iff.
    destruct Hp as [Hp|Hp]; [left|right]; now apply lookup_present.
Qed.

(** A record with [data] and [pending_word_len] only is recognised. *)
Lemma isCairoByteArray_iff_shape_witness :
  isCairoByteArray
    (VObject [(js "data", VArray [VString (js "0x48656c6c6f")]);
              (js "pending_word_len", VNumber (Int 0))]) = true.
Proof.
  apply (proj2 (isCairoByteArray_iff_shape _)).
  exists [(js "data", VArray [VString (js "0x48656c6c6f")]);
          (js "pending_word_len", VNumber (Int 0))],
         [VString (js "0x48656c6c6f")].
  split; [reflexivity|]. split; [reflexivity|].
  right. vm_compute. discriminate.
Defined.

(** ** [byteArrayToString] on objects *)

(** C9: for a non-null object (all of them inherit [toString]; chain byte
    array records are among them) [byteArrayToString] is [value.toString()]
    and nothing else: the short-string, CBOR and Cairo branches are not
    reached, so the result does not depend on the host. *)
Theorem byteArrayToString_object (H : Host) (v : jsvalue) :
  (isCairoByteArray v = true -> is_object v = true)
  /\ (is_object v = true ->
      has_toString v = true
      /\ byteArrayToString H v = (s <- toString_method v ;; Return (VString s))
      /\ (forall fields, v = VObject fields -> lookup (js "toString") fields = None ->
            byteArrayToString H v = Return (VString (js "[object Object]")))).
Proof.
  split.
  { unfold isCairoByteArray, is_object.
    destruct (jstype_eqb (typeof v) TObject && negb (is_null v)); [reflexivity|discriminate]. }
  intro Hobj.
  destruct v as [| | | | | |items|bytes|fields]; try discriminate Hobj.
  - split; [reflexivity|]. split; [reflexivity|]. intros fields Hv; discriminate Hv.
  - split; [reflexivity|]. split; [reflexivity|]. intros fields Hv; discriminate Hv.
  - split; [reflexivity|]. split; [reflexivity|].
    intros fields' Hv Hts. inversion Hv; subst fields'.
    unfold byteArrayToString, toString_method. simpl. now rewrite Hts.
Qed.

(** A chain byte array record is printed as ["[object Object]"]. *)
Lemma byteArrayToString_object_witness :
  byteArrayToString Reference.host
    (byteArrayRecord [VBigInt 310939249775] (VBigInt 0) (VNumber (Int 0)))
  = Return (VString (js "[object Object]")).
Proof.
  exact (proj2 (proj2 (proj2 (byteArrayToString_object Reference.host
           (byteArrayRecord [VBigInt 310939249775] (VBigInt 0) (VNumber (Int 0))))
           eq_refl)) _ eq_refl eq_refl).
Defined.

(** ** [decodeCborMetadata] *)

(** C6, as the code has it: a mapping (a plain object), byte-array shaped or
    not, is returned unchanged and the CBOR decoder is not called; an array
    is not returned but read as a list of bytes for the decoder, and
    rejected when an element is not numeric. *)
Theorem decodeCborMetadata_mapping (H : Host) :
  (forall fields, decodeCborMetadata H (VObject fields) = Return (VObject fields))
  /\ (forall items,
        forallb (isByteItem H) items = false ->
        decodeCborMetadata H (VArray items)
        = Throw (Exn Error (js "CBOR decoding error: Invalid byte array: contains non-numeric values")))
  /\ (forall items,
        forallb (isByteItem H) items = true ->
        decodeCborMetadata H (VArray items)
        = try_catch (decodeCbor H (map (itemByte H) items))
            (fun error => Throw (Exn Error (js "CBOR decoding error: " ++ message error)))).
Proof.
  split; [reflexivity|]. split; intros items Hvalid;
    unfold decodeCborMetadata, convertInput; simpl; rewrite Hvalid; reflexivity.
Qed.

Lemma decodeCborMetadata_mapping_witness :
  decodeCborMetadata Reference.host (VArray [VString (js "Badge")])
  = Throw (Exn Error (js "CBOR decoding error: Invalid byte array: contains non-numeric values")).
Proof.
  exact (proj1 (proj2 (decodeCborMetadata_mapping Reference.host))
           [VString (js "Badge")] eq_refl).
Defined.

(** C6 as the claim states it fails on sequences: a list of attribute
    mappings is no chain byte array, and decoding it raises; the one-element
    list [[0]] decodes to the number 0. *)
Lemma decodeCborMetadata_sequence_counterexample :
  let attributes := VArray [VObject [(js "trait_type", VString (js "Tier"))]] in
  isCairoByteArray attributes = false
  /\ decodeCborMetadata Reference.host attributes
     = Throw (Exn Error (js "CBOR decoding error: Invalid byte array: contains non-numeric values"))
  /\ decodeCborMetadata Reference.host (VArray [VNumber (Int 0)]) = Return (VNumber (Int 0)).
Proof.
  repeat split; vm_compute; reflexivity.
Qed.

(** Where the string conversion succeeds, the method call gives the same
    text. *)
Lemma toString_method_agrees (v : jsvalue) (s : jsstring) :
  ToString v = Return s -> toString_method v = Return s.
Proof.
  destruct v as [| | | | | | | |fields]; try (intro Hs; exact Hs).
  cbn [ToString toString_method].
  destruct (lookup (js "toString") fields); [discriminate|auto].
Qed.

(** Induction on values through the elements of arrays. *)
Lemma jsvalue_array_ind (P : jsvalue -> Prop) :
  (forall items, Forall P items -> P (VArray items)) ->
  (forall v, isArray v = false -> P v) ->
  forall v, P v.
Proof.
  intros Harray Hother.
  fix rec 1.
  intros [| | | | | |items| |]; try (apply Hother; reflexivity).
  apply Harray.
  induction items as [|x items IH]; constructor; [apply rec|exact IH].
Qed.

(** String conversion succeeds on a plain value. *)
Lemma ToString_plain (v : jsvalue) :
  plain v = true -> exists s, ToString v = Return s.
Proof.
  induction v as [items Hitems|v Hv] using jsvalue_array_ind.
  - intro Hplain. cbn [plain] in Hplain. cbn [ToString].
    induction Hitems as [|x items Hx _ IH]; [now exists []|].
    cbn [forallb] in Hplain. apply andb_true_iff in Hplain.
    destruct Hplain as [Hpx Hpl].
    assert (Helem : exists s, match x with
                              | VUndefined | VNull => Return []
                              | _ => ToString x
                              end = Return s).
    { destruct (Hx Hpx) as [s Hs]. destruct x; eauto. }
    destruct Helem as [s ->]. cbn [bind].
    destruct items as [|y items]; [now exists s|].
    destruct (IH Hpl) as [r ->]. cbn [bind]. eauto.
  - destruct v as [| |[|]|n|z|s|items|bytes|fields]; try discriminate Hv;
      cbn [plain ToString]; eauto.
    destruct (lookup (js "toString") fields); [discriminate|eauto].
Qed.

Section Cascade.

Variable H : Host.

(** The hex path: a string that matches the hex pattern is converted with
    [hexToBytes] and handed to the decoder, whose failure is re-raised. *)
Lemma decodeCborMetadata_hex (s : jsstring) (bytes : list Z) :
  is_hex_string s = true ->
  hexToBytes (if startsWith s (js "0x") then slice_from 2 s else s) = Return bytes ->
  decodeCborMetadata H (VString s) = try_catch (decodeCbor H bytes) rethrow.
Proof.
  intros Hhex Hbytes.
  unfold decodeCborMetadata, convertInput.
  assert (Htruthy : truthy (VString s) = true).
  { destruct s; [discriminate Hhex|reflexivity]. }
  rewrite Htruthy, Hhex, Hbytes. reflexivity.
Qed.

(** The text path: any other non-empty string is UTF-8 encoded for the
    decoder, whose failure is re-raised. *)
Lemma decodeCborMetadata_text (s : jsstring) :
  s <> [] ->
  is_hex_string s = false ->
  decodeCborMetadata H (VString s)
  = try_catch (decodeCbor H (TextEncoder_encode H s)) rethrow.
Proof.
  intros Hs Hhex.
  unfold decodeCborMetadata, convertInput.
  assert (Htruthy : truthy (VString s) = true) by (destruct s; [now elim Hs|reflexivity]).
  rewrite Htruthy, Hhex. reflexivity.
Qed.

(** Whatever [decodeCborMetadata] raises is an [Error] whose message
    starts with "CBOR decoding error: ". *)
Lemma decodeCborMetadata_throws_wrapped (v : jsvalue) (e : exn) :
  decodeCborMetadata H v = Throw e ->
  exists cause, e = Exn Error (js "CBOR decoding error: " ++ message cause).
Proof.
  unfold decodeCborMetadata.
  destruct (negb (truthy v)); [discriminate|].
  match goal with |- try_catch ?c _ = _ -> _ => destruct c as [r|cause] end; simpl.
  - discriminate.
  - intro He. inversion He. now exists cause.
Qed.

(** A value that is no object and no string and is truthy: [true], a
    non-zero Number or BigInt. *)
Lemma decodeCborMetadata_primitive (v : jsvalue) :
  truthy v = true ->
  jstype_eqb (typeof v) TString = false ->
  jstype_eqb (typeof v) TObject = false ->
  decodeCborMetadata H v
  = Throw (Exn Error (js "CBOR decoding error: Unsupported value type for CBOR decoding: "
                        ++ typeof_name (typeof v))).
Proof.
  intros Ht Hs Ho. unfold decodeCborMetadata. rewrite Ht.
  destruct v; try discriminate; simpl; reflexivity.
Qed.

(** On such a value [byteArrayToString] answers the short string, or
    [String(value)] when short-string decoding fails. *)
Lemma byteArrayToString_primitive (v : jsvalue) :
  truthy v = true ->
  jstype_eqb (typeof v) TString = false ->
  jstype_eqb (typeof v) TObject = false ->
  byteArrayToString H v
  = match decodeShortString H v with
    | Return s => Return (VString s)
    | Throw _ => s <- String_ v ;; Return (VString s)
    end.
Proof.
  intros Ht Hs Ho. unfold byteArrayToString.
  rewrite Ht, Hs, Ho. simpl.
  destruct (decodeShortString H v) as [s|e]; simpl; [reflexivity|].
  rewrite (decodeCborMetadata_primitive v Ht Hs Ho). simpl.
  reflexivity.
Qed.

Lemma ToString_primitive (v : jsvalue) :
  jstype_eqb (typeof v) TObject = false ->
  exists s, ToString v = Return s.
Proof.
  destruct v as [| |[|]|n|z|s| | |]; simpl; intro Ho; try discriminate; eauto.
Qed.

Lemma byteArrayToString_returns_string (v : jsvalue) :
  (forall e, ToString v <> Throw e) ->
  exists s, byteArrayToString H v = Return (VString s).
Proof.
  intro Hconv.
  destruct (truthy v) eqn:Ht.
  2: { exists []. unfold byteArrayToString. now rewrite Ht. }
  destruct (jstype_eqb (typeof v) TString) eqn:Hs.
  { destruct v; try discriminate. exists s. unfold byteArrayToString.
    now rewrite Ht. }
  destruct (jstype_eqb (typeof v) TObject) eqn:Ho.
  - assert (Hts : has_toString v = true) by (destruct v; try discriminate; reflexivity).
    unfold byteArrayToString. rewrite Ht, Hs, Ho, Hts. simpl.
    destruct (ToString v) as [s|e] eqn:Hv; [|now elim (Hconv e)].
    exists s. now rewrite (toString_method_agrees v s Hv).
  - rewrite (byteArrayToString_primitive v Ht Hs Ho).
    destruct (decodeShortString H v) as [s|e]; [now exists s|].
    destruct (ToString_primitive v Ho) as [s Hv].
    exists s. unfold String_. now rewrite Hv.
Qed.

Lemma decodeCairoByteArray_returns (v : jsvalue) :
  exists r, decodeCairoByteArray H v = Return r.
Proof.
  unfold decodeCairoByteArray.
  destruct (negb (isCairoByteArray v)); [now exists VNull|].
  match goal with |- exists r, try_catch ?c _ = _ => destruct c as [r|e] end;
    simpl; eauto.
Qed.

Lemma decodeCairoByteArrayContent_returns (v : jsvalue) :
  exists r, decodeCairoByteArrayContent H v = Return r.
Proof.
  unfold decodeCairoByteArrayContent.
  destruct (negb (isCairoByteArray v)); [now exists VNull|].
  destruct (collectBytes v) as [byteData|e]; simpl; [|eauto].
  destruct (decodeCbor H byteData) as [r|e]; simpl; eauto.
Qed.

End Cascade.

(** C1, as the code has it: [byteArrayToString] returns a string for every
    input whose string conversion does not raise, which is every plain
    input (every input that is no object, and every object in which no
    mapping reached by the conversion has an own [toString] property); both
    Cairo decoders always return, turning every failure inside them into
    [null] or text; [decodeCborMetadata(null)] is [null] and
    [byteArrayToString(null)] is the empty string.  [decodeCborMetadata]
    itself does not absorb failures: on a string that is no hex text a
    failure of the decoder is raised again, and whatever it raises is a
    re-raised "CBOR decoding error". *)
Theorem decoding_boundary (H : Host) :
  (forall v, (forall e, ToString v <> Throw e) ->
     exists s, byteArrayToString H v = Return (VString s))
  /\ (forall v, plain v = true -> exists s, byteArrayToString H v = Return (VString s))
  /\ (forall v, exists r, decodeCairoByteArray H v = Return r)
  /\ (forall v, exists r, decodeCairoByteArrayContent H v = Return r)
  /\ decodeCborMetadata H VNull = Return VNull
  /\ byteArrayToString H VNull = Return (VString [])
  /\ (forall s e, s <> [] -> is_hex_string s = false ->
        decodeCbor H (TextEncoder_encode H s) = Throw e ->
        decodeCborMetadata H (VString s)
        = Throw (Exn Error (js "CBOR decoding error: " ++ message e)))
  /\ (forall v e, decodeCborMetadata H v = Throw e ->
        exists cause, e = Exn Error (js "CBOR decoding error: " ++ message cause)).
Proof.
  split; [apply byteArrayToString_returns_string|].
  split.
  { intros v Hplain. apply byteArrayToString_returns_string.
    intros e He. destruct (ToString_plain v Hplain) as [s Hs].
    rewrite Hs in He. discriminate He. }
  split; [apply decodeCairoByteArray_returns|].
  split; [apply decodeCairoByteArrayContent_returns|].
  split; [reflexivity|]. split; [reflexivity|].
  split.
  { intros s e Hs Hhex He. rewrite decodeCborMetadata_text by assumption.
    rewrite He. reflexivity. }
  apply decodeCborMetadata_throws_wrapped.
Qed.

(** The number 448378203247 (the felt of the short string "hello") is
    plain and a string is returned. *)
Lemma decoding_boundary_witness :
  exists s, byteArrayToString Reference.host (VNumber (Int 448378203247)) = Return (VString s).
Proof.
  exact (proj1 (proj2 (decoding_boundary Reference.host))
           (VNumber (Int 448378203247)) eq_refl).
Defined.

(** C1 as the claim states it fails: [decodeCborMetadata] raises on a
    non-hex garbage string and on [true], and [byteArrayToString] raises on
    a mapping whose [toString] property is data. *)
Lemma decoding_boundary_counterexample :
  decodeCborMetadata Reference.host (VString (js "zz"))
  = Throw (Exn Error (js "CBOR decoding error: Invalid or truncated CBOR data"))
  /\ decodeCborMetadata Reference.host (VBool true)
     = Throw (Exn Error (js "CBOR decoding error: Unsupported value type for CBOR decoding: boolean"))
  /\ byteArrayToString Reference.host (VObject [(js "toString", VNumber (Int 1))])
     = Throw (Exn TypeError (js "value.toString is not a function")).
Proof.
  repeat split; vm_compute; reflexivity.
Qed.

(** ** The hex path *)

(** C3, as the code has it: for "0x68656c6c6f" the prefix is stripped, the
    hex digits become the bytes of "hello" and the structured decoder is
    tried on them; when it fails, [decodeCborMetadata] re-raises the failure
    as a "CBOR decoding error" (there is no text fallback), and when it
    succeeds its value is returned.  [byteArrayToString] returns the input
    string as it is. *)
Theorem hex_path_hello (H : Host) :
  hexToBytes (js "68656c6c6f") = Return hello_bytes
  /\ (forall e, decodeCbor H hello_bytes = Throw e ->
        decodeCborMetadata H (VString (js "0x68656c6c6f"))
        = Throw (Exn Error (js "CBOR decoding error: " ++ message e)))
  /\ (forall v, decodeCbor H hello_bytes = Return v ->
        decodeCborMetadata H (VString (js "0x68656c6c6f")) = Return v)
  /\ byteArrayToString H (VString (js "0x68656c6c6f")) = Return (VString (js "0x68656c6c6f")).
Proof.
  assert (Hpath : decodeCborMetadata H (VString (js "0x68656c6c6f"))
                  = try_catch (decodeCbor H hello_bytes) rethrow).
  { apply decodeCborMetadata_hex; vm_compute; reflexivity. }
  split; [vm_compute; reflexivity|].
  split; [|split].
  - intros e He. rewrite Hpath, He. reflexivity.
  - intros v Hv. rewrite Hpath, Hv. reflexivity.
  - reflexivity.
Qed.

Lemma hex_path_hello_witness :
  decodeCborMetadata Reference.host (VString (js "0x68656c6c6f"))
  = Throw (Exn Error (js "CBOR decoding error: Invalid or truncated CBOR data")).
Proof.
  exact (proj1 (proj2 (hex_path_hello Reference.host))
           (Exn Error (js "Invalid or truncated CBOR data")) eq_refl).
Defined.

(** C3 as the claim states it fails: the bytes spell "hello" and are no
    CBOR item (a text string of length 8 with 4 bytes left), and the result
    is the re-raised failure, not the text "hello". *)
Lemma hex_path_hello_counterexample :
  Reference.utf8_decode hello_bytes = js "hello"
  /\ decodeCbor Reference.host hello_bytes
     = Throw (Exn Error (js "Invalid or truncated CBOR data"))
  /\ decodeCborMetadata Reference.host (VString (js "0x68656c6c6f"))
     <> Return (VString (js "hello")).
Proof.
  split; [vm_compute; reflexivity|]. split; [vm_compute; reflexivity|].
  vm_compute. discriminate.
Qed.

(** ** Words that cannot be converted *)

(** A length that [parseInt] reads as a positive integer is truthy. *)
Lemma parseInt_positive_truthy (pending_word_len : jsvalue) (n : Z) :
  parseInt pending_word_len = Return (Some n) -> 0 < n ->
  truthy pending_word_len = true.
Proof.
  intros Hlen Hn.
  destruct pending_word_len as [| |[|]|[z| |b t]|z|[|c s]| | |];
    try reflexivity; try (vm_compute in Hlen; discriminate Hlen).
  - destruct (Z.eqb_spec z 0) as [->|Hz]; [|cbn; now apply Bool.negb_true_iff, Z.eqb_neq].
    vm_compute in Hlen. inversion Hlen. lia.
  - destruct (Z.eqb_spec z 0) as [->|Hz]; [|cbn; now apply Bool.negb_true_iff, Z.eqb_neq].
    vm_compute in Hlen. inversion Hlen. lia.
Qed.

(** A word that [BigInt] reads as a positive integer is truthy. *)
Lemma BigInt_positive_truthy (pending_word : jsvalue) (m : Z) :
  BigInt pending_word = Return m -> 0 < m -> truthy pending_word = true.
Proof.
  intros Hm Hpos.
  destruct pending_word as [| |[|]|[z| |b t]|z|[|c s]| | |];
    try reflexivity; try discriminate Hm;
    try (vm_compute in Hm; inversion Hm; lia).
  - cbn in Hm. inversion Hm. subst z. cbn.
    apply Bool.negb_true_iff, Z.eqb_neq. lia.
  - cbn in Hm. inversion Hm. subst z. cbn.
    apply Bool.negb_true_iff, Z.eqb_neq. lia.
Qed.


Section Malformed.

Variable H : Host.

Lemma wordBytes_throws (w : jsvalue) (e : exn) :
  BigInt w = Throw e -> wordBytes w = Throw e.
Proof. intro Hw. unfold wordBytes. now rewrite Hw. Qed.

(** The loop over [data] stops at the first word that raises. *)
Lemma decodeWords_throws (data : list jsvalue) (w : jsvalue) (e : exn) :
  In w data -> BigInt w = Throw e ->
  forall result, exists e', decodeWords H data result = Throw e'.
Proof.
  intros Hin Hw.
  induction data as [|x data IH]; [contradiction|].
  intro result. simpl.
  destruct Hin as [->|Hin].
  - rewrite (wordBytes_throws _ _ Hw). simpl. eauto.
  - destruct (wordBytes x) as [bytes|e1]; simpl; [apply (IH Hin)|eauto].
Qed.

Lemma collectWords_throws (data : list jsvalue) (w : jsvalue) (e : exn) :
  In w data -> BigInt w = Throw e ->
  forall allBytes, exists e', collectWords data allBytes = Throw e'.
Proof.
  intros Hin Hw.
  induction data as [|x data IH]; [contradiction|].
  intro allBytes. simpl.
  destruct Hin as [->|Hin].
  - rewrite (wordBytes_throws _ _ Hw). simpl. eauto.
  - destruct (wordBytes x) as [bytes|e1]; simpl; [apply (IH Hin)|eauto].
Qed.

(** An examined pending word that raises. *)
Lemma pendingBytes_throws (pending_word pending_word_len : jsvalue) (n : Z) (e : exn) :
  truthy pending_word = true ->
  parseInt pending_word_len = Return (Some n) -> 0 < n ->
  BigInt pending_word = Throw e ->
  pendingBytes pending_word pending_word_len = Throw e.
Proof.
  intros Hpw Hlen Hn Hw. unfold pendingBytes.
  rewrite Hpw, (parseInt_positive_truthy _ _ Hlen Hn), Hlen. simpl.
  apply Z.ltb_lt in Hn. rewrite Hn.
  now rewrite (wordBytes_throws _ _ Hw).
Qed.

Lemma decodeCairoByteArray_null_on_throw (v : jsvalue) :
  isCairoByteArray v = true ->
  (forall result, exists e, decodeWords H (items_of (get (js "data") v)) result = Throw e)
  \/ (exists e, pendingBytes (get (js "pending_word") v) (get (js "pending_word_len") v) = Throw e) ->
  decodeCairoByteArray H v = Return VNull.
Proof.
  intros Hshape Hthrow. unfold decodeCairoByteArray. rewrite Hshape. simpl.
  destruct Hthrow as [Hdata|[e Hpending]].
  - destruct (Hdata []) as [e He]. now rewrite He.
  - destruct (decodeWords H _ []) as [result|e1]; simpl; [|reflexivity].
    now rewrite Hpending.
Qed.

Lemma decodeCairoByteArrayContent_null_on_throw (v : jsvalue) :
  isCairoByteArray v = true ->
  (forall allBytes, exists e, collectWords (items_of (get (js "data") v)) allBytes = Throw e)
  \/ (exists e, pendingBytes (get (js "pending_word") v) (get (js "pending_word_len") v) = Throw e) ->
  decodeCairoByteArrayContent H v = Return VNull.
Proof.
  intros Hshape Hthrow. unfold decodeCairoByteArrayContent, collectBytes.
  rewrite Hshape. simpl.
  destruct Hthrow as [Hdata|[e Hpending]].
  - destruct (Hdata []) as [e He]. now rewrite He.
  - destruct (collectWords _ []) as [allBytes|e1]; simpl; [|reflexivity].
    now rewrite Hpending.
Qed.

End Malformed.

(** C5, as the code has it: when [BigInt] cannot convert a word of [data]
    (NaN, a fraction, a text that is no integer literal, [null],
    [undefined]), or
    cannot convert a pending word that the guards let through (a truthy
    pending word and [parseInt(pending_word_len) > 0]), reassembly aborts
    and [decodeCairoByteArray] and [decodeCairoByteArrayContent] both
    return [null]. *)
Theorem unconvertible_word_gives_null (H : Host) (v : jsvalue) :
  isCairoByteArray v = true ->
  (forall w e,
     In w (items_of (get (js "data") v)) -> BigInt w = Throw e ->
     decodeCairoByteArray H v = Return VNull
     /\ decodeCairoByteArrayContent H v = Return VNull)
  /\ (forall n e,
        truthy (get (js "pending_word") v) = true ->
        parseInt (get (js "pending_word_len") v) = Return (Some n) -> 0 < n ->
        BigInt (get (js "pending_word") v) = Throw e ->
        decodeCairoByteArray H v = Return VNull
        /\ decodeCairoByteArrayContent H v = Return VNull)
  /\ (exists e, BigInt (VNumber NaN) = Throw e)
  /\ (forall byte text, exists e, BigInt (VNumber (Other byte text)) = Throw e)
  /\ (exists e, BigInt (VString (js "1.5")) = Throw e)
  /\ (exists e, BigInt (VString (js "abc")) = Throw e)
  /\ (exists e, BigInt VNull = Throw e)
  /\ (exists e, BigInt VUndefined = Throw e).
Proof.
  intro Hshape. split; [|split].
  - intros w e Hin Hw. split.
    + apply decodeCairoByteArray_null_on_throw; [exact Hshape|left].
      exact (decodeWords_throws H _ w e Hin Hw).
    + apply decodeCairoByteArrayContent_null_on_throw; [exact Hshape|left].
      exact (collectWords_throws _ w e Hin Hw).
  - intros n e Hpw Hlen Hn Hw.
    pose proof (pendingBytes_throws _ _ n e Hpw Hlen Hn Hw) as Hp.
    split.
    + apply decodeCairoByteArray_null_on_throw; [exact Hshape|right; eauto].
    + apply decodeCairoByteArrayContent_null_on_throw; [exact Hshape|right; eauto].
  - repeat split; try intros byte text; eexists; vm_compute; reflexivity.
Qed.

(** A record whose second word is the text "1.5". *)
Lemma unconvertible_word_gives_null_witness :
  decodeCairoByteArray Reference.host
    (byteArrayRecord [VBigInt 65; VString (js "1.5")] (VBigInt 0) (VNumber (Int 0)))
  = Return VNull
  /\ decodeCairoByteArrayContent Reference.host
       (byteArrayRecord [VBigInt 65; VString (js "1.5")] (VBigInt 0) (VNumber (Int 0)))
     = Return VNull.
Proof.
  refine (proj1 (unconvertible_word_gives_null Reference.host
                   (byteArrayRecord [VBigInt 65; VString (js "1.5")] (VBigInt 0) (VNumber (Int 0)))
                   eq_refl)
            (VString (js "1.5"))
            (Exn SyntaxError (js "Cannot convert text to a BigInt")) _ eq_refl).
  simpl. right. left. reflexivity.
Defined.

(** C5 as the claim states it fails: the negative word -5 is rendered "-5"
    and read back as the byte 251, so text comes out instead of [null];
    and the pending word "1.5" is never converted when [pending_word_len]
    is 0. *)
Lemma unconvertible_word_counterexample :
  collectBytes (byteArrayRecord [VBigInt (-5)] (VBigInt 0) (VNumber (Int 0))) = Return [251]
  /\ decodeCairoByteArray Reference.host
       (byteArrayRecord [VBigInt (-5)] (VBigInt 0) (VNumber (Int 0)))
     = Return (VString [65533])
  /\ decodeCairoByteArrayContent Reference.host
       (byteArrayRecord [VBigInt (-5)] (VBigInt 0) (VNumber (Int 0)))
     = Return (VString [65533])
  /\ decodeCairoByteArray Reference.host
       (byteArrayRecord [VBigInt 65] (VString (js "1.5")) (VNumber (Int 0)))
     = Return (VString (js "A")).
Proof.
  repeat split; vm_compute; reflexivity.
Qed.

(** ** Positional digits *)

Section Digits.

Variable base : Z.
Hypothesis base_ge_2 : 2 <= base.

(** More fuel than the binary length never changes the digits. *)
Lemma digits_le_aux_fuel (f : nat) :
  forall n f', 0 <= n < 2 ^ (Z.of_nat f + 1) -> (f <= f')%nat ->
    digits_le_aux f' base n = digits_le_aux f base n.
Proof.
  induction f as [|f IH]; intros n f' Hn Hf.
  - simpl in Hn. change (2 ^ 1) with 2 in Hn.
    assert (Hlt : (n <? base) = true) by (apply Z.ltb_lt; lia).
    destruct f'; simpl; [reflexivity|now rewrite Hlt].
  - destruct f' as [|f']; [lia|]. simpl.
    destruct (n <? base) eqn:Hlt; [reflexivity|].
    f_equal. apply IH; [|lia].
    apply Z.ltb_ge in Hlt.
    split; [apply Z.div_pos; lia|].
    apply Z.div_lt_upper_bound; [lia|].
    replace (Z.of_nat (S f) + 1) with (Z.succ (Z.of_nat f + 1)) in Hn by lia.
    rewrite Z.pow_succ_r in Hn by lia.
    assert (0 < 2 ^ (Z.of_nat f + 1)) by (apply Z.pow_pos_nonneg; lia).
    nia.
Qed.

Lemma digits_le_unfold (n : Z) :
  0 <= n ->
  digits_le base n
  = if n <? base then [n] else (n mod base) :: digits_le base (n / base).
Proof.
  intro Hn. unfold digits_le.
  destruct (n <? base) eqn:Hlt.
  - destruct (Z.to_nat (Z.log2 n)); simpl; now rewrite ?Hlt.
  - apply Z.ltb_ge in Hlt.
    assert (Hlog : 1 <= Z.log2 n).
    { change 1 with (Z.log2 2). apply Z.log2_le_mono. lia. }
    destruct (Z.to_nat (Z.log2 n)) as [|k] eqn:Hk; [lia|].
    simpl. apply Z.ltb_ge in Hlt. rewrite Hlt. f_equal.
    apply Z.ltb_ge in Hlt.
    assert (Hq : 0 < n / base).
    { apply Z.div_str_pos. lia. }
    assert (Hsmall : n / base < 2 ^ Z.log2 n).
    { apply Z.div_lt_upper_bound; [lia|].
      pose proof (Z.log2_spec n ltac:(lia)) as [_ Hup].
      rewrite Z.pow_succ_r in Hup by lia.
      assert (0 < 2 ^ Z.log2 n) by (apply Z.pow_pos_nonneg; lia).
      nia. }
    apply Z.log2_lt_pow2 in Hsmall; [|exact Hq].
    apply digits_le_aux_fuel; [|lia].
    pose proof (Z.log2_spec (n / base) Hq) as [_ Hup].
    rewrite Z2Nat.id by apply Z.log2_nonneg.
    replace (Z.log2 (n / base) + 1) with (Z.succ (Z.log2 (n / base))) by lia.
    lia.
Qed.

(** Induction along the divisions by the base. *)
Lemma digits_ind (P : Z -> Prop) :
  (forall n, 0 <= n < base -> P n) ->
  (forall n, base <= n -> P (n / base) -> P n) ->
  forall n, 0 <= n -> P n.
Proof.
  intros Hsmall Hstep n.
  induction n as [n IH] using (well_founded_induction (Z.lt_wf 0)).
  intro Hn.
  destruct (Z_lt_le_dec n base) as [Hlt|Hge]; [apply Hsmall; lia|].
  apply Hstep; [exact Hge|].
  assert (0 <= n / base < n).
  { split; [apply Z.div_pos; lia|apply Z.div_lt; lia]. }
  apply IH; lia.
Qed.

(** The value of a little-endian digit sequence. *)
Lemma of_digits_be_rev (ds : list Z) :
  of_digits_be base (rev ds) = fold_right (fun d acc => d + base * acc) 0 ds.
Proof.
  unfold of_digits_be. rewrite <- fold_left_rev_right, rev_involutive.
  induction ds as [|d ds IH]; simpl; [reflexivity|]. rewrite IH. lia.
Qed.

(** The digits denote the number. *)
Lemma of_digits_be_digits (n : Z) :
  0 <= n -> of_digits_be base (digits_be base n) = n.
Proof.
  unfold digits_be. rewrite of_digits_be_rev.
  revert n. apply digits_ind.
  - intros n Hn. rewrite digits_le_unfold by lia.
    assert (Hlt : (n <? base) = true) by (apply Z.ltb_lt; lia).
    rewrite Hlt. simpl. lia.
  - intros n Hn IH. rewrite digits_le_unfold by lia.
    assert (Hlt : (n <? base) = false) by (apply Z.ltb_ge; lia).
    rewrite Hlt. simpl. rewrite IH.
    pose proof (Z.div_mod n base ltac:(lia)). lia.
Qed.

(** Every digit is below the base. *)
Lemma digits_le_range (n : Z) :
  0 <= n -> Forall (fun d => 0 <= d < base) (digits_le base n).
Proof.
  revert n. apply digits_ind.
  - intros n Hn. rewrite digits_le_unfold by lia.
    assert (Hlt : (n <? base) = true) by (apply Z.ltb_lt; lia).
    rewrite Hlt. constructor; [lia|constructor].
  - intros n Hn IH. rewrite digits_le_unfold by lia.
    assert (Hlt : (n <? base) = false) by (apply Z.ltb_ge; lia).
    rewrite Hlt. constructor; [apply Z.mod_pos_bound; lia|exact IH].
Qed.

(** The most significant digit of a positive number is not zero. *)
Lemma digits_le_last (n : Z) :
  0 <= n -> exists ds d, digits_le base n = ds ++ [d] /\ (0 < n -> 0 < d).
Proof.
  revert n. apply digits_ind.
  - intros n Hn. rewrite digits_le_unfold by lia.
    assert (Hlt : (n <? base) = true) by (apply Z.ltb_lt; lia).
    rewrite Hlt. exists [], n. split; [reflexivity|lia].
  - intros n Hn (ds & d & Hds & Hd). rewrite digits_le_unfold by lia.
    assert (Hlt : (n <? base) = false) by (apply Z.ltb_ge; lia).
    rewrite Hlt, Hds. exists (n mod base :: ds), d. split; [reflexivity|].
    intros _. apply Hd. apply Z.div_str_pos. lia.
Qed.

(** A number of [k + 1] digits. *)
Lemma digits_le_length (k : nat) :
  forall n, base ^ Z.of_nat k <= n < base ^ (Z.of_nat k + 1) ->
    length (digits_le base n) = S k.
Proof.
  induction k as [|k IH]; intros n Hn.
  - change (Z.of_nat 0) with 0 in Hn.
    rewrite Z.pow_0_r, Z.add_0_l, Z.pow_1_r in Hn.
    rewrite digits_le_unfold by lia.
    assert (Hlt : (n <? base) = true) by (apply Z.ltb_lt; lia).
    now rewrite Hlt.
  - replace (Z.of_nat (S k)) with (Z.succ (Z.of_nat k)) in Hn by lia.
    replace (Z.succ (Z.of_nat k) + 1) with (Z.succ (Z.of_nat k + 1)) in Hn by lia.
    rewrite !Z.pow_succ_r in Hn by lia.
    assert (Hpos : 0 < base ^ Z.of_nat k) by (apply Z.pow_pos_nonneg; lia).
    rewrite digits_le_unfold by nia.
    assert (Hlt : (n <? base) = false) by (apply Z.ltb_ge; nia).
    rewrite Hlt. simpl. f_equal. apply IH. split.
    + apply Z.div_le_lower_bound; lia.
    + apply Z.div_lt_upper_bound; lia.
Qed.

End Digits.

(** ** Digit characters *)

Ltac case_test t when_true when_false :=
  let E := fresh "E" in
  destruct t eqn:E; [apply when_true in E|apply when_false in E]; try lia.

Ltac decide_tests :=
  repeat match goal with
         | |- context [?a <=? ?b] => case_test (a <=? b) Z.leb_le Z.leb_gt
         | |- context [?a <? ?b] => case_test (a <? b) Z.ltb_lt Z.ltb_ge
         | |- context [?a =? ?b] => case_test (a =? b) Z.eqb_eq Z.eqb_neq
         end;
  cbn [andb orb negb]; try lia.

Lemma digit_val_char (d : Z) :
  0 <= d < 36 -> digit_val (digit_char d) = Some d.
Proof.
  intro Hd. unfold digit_val, digit_char.
  destruct (Z.ltb_spec d 10); decide_tests; f_equal; lia.
Qed.

Lemma digit_char_range (d : Z) :
  0 <= d < 36 -> 48 <= digit_char d <= 122.
Proof. intro Hd. unfold digit_char. destruct (Z.ltb_spec d 10); lia. Qed.

Lemma digit_char_decimal (d : Z) :
  0 <= d < 10 -> 48 <= digit_char d <= 57.
Proof. intro Hd. unfold digit_char. destruct (Z.ltb_spec d 10); lia. Qed.

Lemma not_whitespace (c : Z) :
  33 <= c <= 126 -> is_whitespace c = false.
Proof.
  intro Hc. unfold is_whitespace. cbn [existsb]. decide_tests; reflexivity.
Qed.

Lemma trimStart_id (s : jsstring) :
  Forall (fun c => is_whitespace c = false) s -> trimStart s = s.
Proof.
  intro Hs. destruct Hs as [|c s Hc Hs]; simpl; [reflexivity|now rewrite Hc].
Qed.

Lemma trim_id (s : jsstring) :
  Forall (fun c => is_whitespace c = false) s -> trim s = s.
Proof.
  intro Hs. unfold trim.
  rewrite (trimStart_id s Hs).
  rewrite (trimStart_id (rev s)) by (apply Forall_rev; exact Hs).
  apply rev_involutive.
Qed.

Section DigitText.

Variable radix : Z.
Hypothesis radix_range : 2 <= radix <= 36.

Lemma is_digit_char (d : Z) :
  0 <= d < radix -> is_digit radix (digit_char d) = true.
Proof.
  intro Hd. unfold is_digit. rewrite digit_val_char by lia.
  apply Z.ltb_lt. lia.
Qed.

Lemma forallb_digit_chars (ds : list Z) :
  Forall (fun d => 0 <= d < radix) ds ->
  forallb (is_digit radix) (map digit_char ds) = true.
Proof.
  induction 1 as [|d ds Hd _ IH]; simpl; [reflexivity|].
  now rewrite is_digit_char, IH.
Qed.

Lemma digits_value_chars_from (ds : list Z) :
  Forall (fun d => 0 <= d < radix) ds ->
  forall acc,
    fold_left (fun acc c => acc * radix + match digit_val c with Some d => d | None => 0 end)
      (map digit_char ds) acc
    = fold_left (fun acc d => acc * radix + d) ds acc.
Proof.
  induction 1 as [|d ds Hd _ IH]; intro acc; simpl; [reflexivity|].
  rewrite digit_val_char by lia. apply IH.
Qed.

Lemma digits_value_chars (ds : list Z) :
  Forall (fun d => 0 <= d < radix) ds ->
  digits_value radix (map digit_char ds) = of_digits_be radix ds.
Proof.
  intro Hds. exact (digits_value_chars_from ds Hds 0).
Qed.

(** The text of a non-empty digit sequence reads back as its value. *)
Lemma literal_chars (ds : list Z) :
  ds <> [] ->
  Forall (fun d => 0 <= d < radix) ds ->
  literal radix (map digit_char ds) = Some (of_digits_be radix ds).
Proof.
  intros Hne Hds. unfold literal, all_digits.
  destruct ds as [|d ds]; [now elim Hne|].
  change (map digit_char (d :: ds)) with (digit_char d :: map digit_char ds) at 1.
  cbv iota.
  rewrite (forallb_digit_chars (d :: ds) Hds).
  now rewrite digits_value_chars.
Qed.

Lemma digits_be_range (n : Z) :
  0 <= n -> Forall (fun d => 0 <= d < radix) (digits_be radix n).
Proof.
  intro Hn. unfold digits_be. apply Forall_rev.
  apply digits_le_range; lia.
Qed.

Lemma digits_be_nonempty (n : Z) : 0 <= n -> digits_be radix n <> [].
Proof.
  intros Hn Hnil. unfold digits_be in Hnil.
  destruct (digits_le_last radix ltac:(lia) n Hn) as (ds & d & Hds & _).
  rewrite Hds, rev_app_distr in Hnil. discriminate Hnil.
Qed.

(** [n.toString(radix)] of a non-negative [n] reads back as [n]. *)
Lemma literal_toString (n : Z) :
  0 <= n -> literal radix (map digit_char (digits_be radix n)) = Some n.
Proof.
  intro Hn.
  rewrite literal_chars by (auto using digits_be_nonempty, digits_be_range).
  f_equal. apply of_digits_be_digits; lia.
Qed.

Lemma digit_chars_not_whitespace (n : Z) :
  0 <= n ->
  Forall (fun c => is_whitespace c = false) (map digit_char (digits_be radix n)).
Proof.
  intro Hn. apply Forall_map.
  eapply Forall_impl; [|apply (digits_be_range n Hn)].
  intros d Hd. cbv beta in Hd. apply not_whitespace.
  pose proof (digit_char_range d ltac:(lia)). lia.
Qed.

End DigitText.

(** The decimal text of an integer is exact: read as an integer literal it
    is the integer again. *)
Lemma StringToBigInt_toString (z : Z) :
  StringToBigInt (int_toString 10 z) = Some z.
Proof.
  assert (Hr : 2 <= 10 <= 36) by lia.
  unfold StringToBigInt, int_toString.
  destruct (Z.ltb_spec z 0) as [Hneg|Hpos].
  - rewrite trim_id.
    2:{ constructor; [reflexivity|]. apply (digit_chars_not_whitespace 10 Hr). lia. }
    change (45 =? 45) with true. cbv iota.
    rewrite (literal_toString 10 Hr) by lia. simpl. f_equal. lia.
  - rewrite trim_id by (apply (digit_chars_not_whitespace 10 Hr); lia).
    pose proof (literal_toString 10 Hr z Hpos) as Hlit.
    pose proof (digits_be_range 10 Hr z Hpos) as Hrange.
    destruct (digits_be 10 z) as [|d ds] eqn:Hds.
    { now elim (digits_be_nonempty 10 Hr z Hpos). }
    simpl map in *.
    inversion Hrange as [|? ? Hd Hrest]; subst. cbv beta in Hd.
    pose proof (digit_char_decimal d Hd) as Hc.
    destruct (Z.eqb_spec (digit_char d) 45); [lia|].
    destruct (Z.eqb_spec (digit_char d) 43); [lia|].
    destruct ds as [|d' ds']; simpl map; [exact Hlit|].
    inversion Hrest as [|? ? Hd' _]; subst. cbv beta in Hd'.
    pose proof (digit_char_decimal d' Hd') as Hc'.
    destruct (Z.eqb_spec (digit_char d') 120); [lia|].
    destruct (Z.eqb_spec (digit_char d') 88); [lia|].
    destruct (Z.eqb_spec (digit_char d') 111); [lia|].
    destruct (Z.eqb_spec (digit_char d') 79); [lia|].
    destruct (Z.eqb_spec (digit_char d') 98); [lia|].
    destruct (Z.eqb_spec (digit_char d') 66); [lia|].
    simpl. rewrite !andb_false_r. exact Hlit.
Qed.

(** C8: the JSON replacer turns a BigInt into its decimal digit string.
    The digits are exact (read as an integer literal they give the BigInt
    back), and 12345678901234567890, which no 53-bit mantissa holds,
    becomes "12345678901234567890", also inside [JSON.stringify]. *)
Theorem jsonReplacer_bigint_exact (key : jsstring) (z : Z) :
  jsonReplacer key (VBigInt z) = VString (int_toString 10 z)
  /\ StringToBigInt (int_toString 10 z) = Some z
  /\ jsonReplacer key (VBigInt 12345678901234567890)
     = VString (js "12345678901234567890")
  /\ Reference.json_stringify
       (VObject [(js "price", VBigInt 12345678901234567890)]) jsonReplacer
     = Return (VString (js "{" ++ [34] ++ js "price" ++ [34] ++ js ":" ++ [34]
                          ++ js "12345678901234567890" ++ [34] ++ js "}")).
Proof.
  split; [reflexivity|]. split; [apply StringToBigInt_toString|].
  split; vm_compute; reflexivity.
Qed.

(** ** Hex text and bytes *)

Lemma parse_pair_table :
  forallb (fun hi =>
    forallb (fun lo =>
      match parseInt_string (Some 16) [digit_char hi; digit_char lo] with
      | Some v => v =? hi * 16 + lo
      | None => false
      end) hex_range) hex_range = true.
Proof. vm_compute. reflexivity. Qed.

Lemma in_hex_range (d : Z) : 0 <= d < 16 -> In d hex_range.
Proof.
  intro Hd. unfold hex_range.
  replace d with (Z.of_nat (Z.to_nat d)) by lia.
  apply in_map, in_seq. lia.
Qed.

(** [parseInt] of two hex digits is the byte they spell. *)
Lemma parse_pair (hi lo : Z) :
  0 <= hi < 16 -> 0 <= lo < 16 ->
  parseInt_string (Some 16) [digit_char hi; digit_char lo] = Some (hi * 16 + lo).
Proof.
  intros Hhi Hlo.
  pose proof parse_pair_table as Htable.
  rewrite forallb_forall in Htable.
  specialize (Htable hi (in_hex_range hi Hhi)).
  rewrite forallb_forall in Htable.
  specialize (Htable lo (in_hex_range lo Hlo)).
  destruct (parseInt_string (Some 16) [digit_char hi; digit_char lo]) as [v|];
    [|discriminate].
  apply Z.eqb_eq in Htable. now subst v.
Qed.

Lemma nibbles_be_range (b : Z) :
  0 <= b < 256 -> Forall (fun d => 0 <= d < 16) (nibbles_be b).
Proof.
  intro Hb. unfold nibbles_be.
  repeat constructor.
  - apply Z.div_pos; lia.
  - apply Z.div_lt_upper_bound; lia.
  - apply Z.mod_pos_bound; lia.
  - apply Z.mod_pos_bound; lia.
Qed.

(** The loop of [hexToBytes] reads the hex digits of a byte sequence back
    into the bytes. *)
Lemma hexToBytes_loop_nibbles (bytes : list Z) :
  Forall (fun b => 0 <= b < 256) bytes ->
  forall i, hexToBytes_loop i (map digit_char (flat_map nibbles_be bytes)) = Return bytes.
Proof.
  induction 1 as [|b bytes Hb _ IH]; intro i; [reflexivity|].
  cbn [flat_map nibbles_be app map hexToBytes_loop].
  rewrite parse_pair.
  - rewrite IH. simpl. f_equal. f_equal. unfold toUint8.
    pose proof (Z.div_mod b 16 ltac:(lia)).
    rewrite Z.mod_small; lia.
  - split; [apply Z.div_pos; lia|apply Z.div_lt_upper_bound; lia].
  - apply Z.mod_pos_bound; lia.
Qed.

Lemma length_nibbles (bytes : list Z) :
  length (flat_map nibbles_be bytes) = (2 * length bytes)%nat.
Proof. induction bytes as [|b bytes IH]; simpl; [reflexivity|]. rewrite IH. lia. Qed.

Lemma pad_even_nibbles (bytes : list Z) :
  pad_even (map digit_char (flat_map nibbles_be bytes))
  = map digit_char (flat_map nibbles_be bytes).
Proof.
  unfold pad_even. rewrite length_map, length_nibbles.
  now rewrite Nat.even_even.
Qed.

Lemma hexToBytes_nibbles (bytes : list Z) :
  Forall (fun b => 0 <= b < 256) bytes ->
  hexToBytes (map digit_char (flat_map nibbles_be bytes)) = Return bytes.
Proof.
  intro Hb. unfold hexToBytes. rewrite pad_even_nibbles.
  now apply hexToBytes_loop_nibbles.
Qed.

(** *** Hex digits are the nibbles of the base-256 digits *)

Lemma pad_le_cons2 (a b : Z) (ds : list Z) :
  pad_le (a :: b :: ds) = a :: b :: pad_le ds.
Proof. unfold pad_le. simpl. now destruct (Nat.even (length ds)). Qed.

Lemma byte_nibbles (n : Z) :
  (n mod 256) mod 16 = n mod 16 /\ (n mod 256) / 16 = (n / 16) mod 16.
Proof.
  change 256 with (16 * 16).
  rewrite Z.rem_mul_r by lia.
  pose proof (Z.mod_pos_bound n 16 ltac:(lia)).
  pose proof (Z.mod_pos_bound (n / 16) 16 ltac:(lia)).
  split.
  - symmetry. apply Z.mod_unique with ((n / 16) mod 16); lia.
  - symmetry. apply Z.div_unique with (n mod 16); lia.
Qed.

Lemma digits_le_16_unfold (n : Z) :
  0 <= n ->
  digits_le 16 n = if n <? 16 then [n] else (n mod 16) :: digits_le 16 (n / 16).
Proof. apply digits_le_unfold. lia. Qed.

Lemma digits_le_256_unfold (n : Z) :
  0 <= n ->
  digits_le 256 n = if n <? 256 then [n] else (n mod 256) :: digits_le 256 (n / 256).
Proof. apply digits_le_unfold. lia. Qed.

Lemma digits_le_16_256 (n : Z) :
  0 <= n ->
  pad_le (digits_le 16 n)
  = flat_map (fun b => [b mod 16; b / 16]) (digits_le 256 n).
Proof.
  revert n. apply (digits_ind 256 ltac:(lia)).
  - intros n Hn.
    rewrite digits_le_256_unfold by lia.
    assert (Hlt : (n <? 256) = true) by (apply Z.ltb_lt; lia).
    rewrite Hlt. cbn [flat_map app].
    rewrite digits_le_16_unfold by lia.
    destruct (Z.ltb_spec n 16) as [Hs|Hs].
    + unfold pad_le. simpl. now rewrite Z.mod_small, Z.div_small by lia.
    + rewrite digits_le_16_unfold by (apply Z.div_pos; lia).
      assert (Hq : (n / 16 <? 16) = true).
      { apply Z.ltb_lt. apply Z.div_lt_upper_bound; lia. }
      rewrite Hq. reflexivity.
  - intros n Hn IH.
    rewrite digits_le_256_unfold by lia.
    assert (Hlt : (n <? 256) = false) by (apply Z.ltb_ge; lia).
    rewrite Hlt. cbn [flat_map app].
    rewrite digits_le_16_unfold by lia.
    assert (Hlt1 : (n <? 16) = false) by (apply Z.ltb_ge; lia).
    rewrite Hlt1.
    rewrite (digits_le_16_unfold (n / 16)) by (apply Z.div_pos; lia).
    assert (Hlt2 : (n / 16 <? 16) = false).
    { apply Z.ltb_ge. apply Z.div_le_lower_bound; lia. }
    rewrite Hlt2.
    rewrite pad_le_cons2.
    rewrite Z.div_div by lia. change (16 * 16) with 256.
    rewrite IH.
    destruct (byte_nibbles n) as [-> ->]. reflexivity.
Qed.

Lemma rev_flat_map_nibbles (bytes : list Z) :
  rev (flat_map (fun b => [b mod 16; b / 16]) bytes)
  = flat_map nibbles_be (rev bytes).
Proof.
  induction bytes as [|b bytes IH]; [reflexivity|].
  cbn [flat_map rev]. rewrite flat_map_app, <- IH.
  cbn [flat_map]. rewrite app_nil_r.
  change ([b mod 16; b / 16] ++ flat_map (fun b0 => [b0 mod 16; b0 / 16]) bytes)
    with (b mod 16 :: b / 16 :: flat_map (fun b0 => [b0 mod 16; b0 / 16]) bytes).
  cbn [rev]. rewrite <- app_assoc. reflexivity.
Qed.

Lemma pad_even_digits (ds : list Z) :
  pad_even (map digit_char (rev ds)) = map digit_char (rev (pad_le ds)).
Proof.
  unfold pad_even, pad_le. rewrite length_map, length_rev.
  destruct (Nat.even (length ds)); [reflexivity|].
  rewrite rev_app_distr. reflexivity.
Qed.

(** The padded hex text of [n >= 0] spells its big-endian bytes. *)
Lemma padded_hex_spells_bytes (n : Z) :
  0 <= n ->
  pad_even (int_toString 16 n) = map digit_char (flat_map nibbles_be (be_bytes n)).
Proof.
  intro Hn. unfold int_toString.
  assert (Hlt : (n <? 0) = false) by (apply Z.ltb_ge; lia).
  rewrite Hlt. unfold digits_be at 1.
  rewrite pad_even_digits, digits_le_16_256 by exact Hn.
  now rewrite rev_flat_map_nibbles.
Qed.

Lemma be_bytes_range (n : Z) :
  0 <= n -> Forall (fun b => 0 <= b < 256) (be_bytes n).
Proof.
  intro Hn. unfold be_bytes, digits_be.
  apply Forall_rev, digits_le_range; lia.
Qed.

(** [hexToBytes] of the padded hex text of a word is the word's
    big-endian bytes. *)
Lemma hexToBytes_word (n : Z) :
  0 <= n -> hexToBytes (pad_even (int_toString 16 n)) = Return (be_bytes n).
Proof.
  intro Hn. rewrite padded_hex_spells_bytes by exact Hn.
  apply hexToBytes_nibbles, be_bytes_range, Hn.
Qed.

Lemma wordBytes_be (wordFelt : jsvalue) (w : Z) :
  BigInt wordFelt = Return w -> 0 <= w -> wordBytes wordFelt = Return (be_bytes w).
Proof.
  intros Hw Hpos. unfold wordBytes. rewrite Hw. simpl.
  now apply hexToBytes_word.
Qed.

(** ** Reassembly *)

Lemma record_fields (data : list jsvalue) (pending_word pending_word_len : jsvalue) :
  isCairoByteArray (byteArrayRecord data pending_word pending_word_len) = true
  /\ get (js "data") (byteArrayRecord data pending_word pending_word_len) = VArray data
  /\ get (js "pending_word") (byteArrayRecord data pending_word pending_word_len) = pending_word
  /\ get (js "pending_word_len") (byteArrayRecord data pending_word pending_word_len)
     = pending_word_len.
Proof. repeat split. Qed.

(** The loop over [data] appends the big-endian bytes of each word, in
    order. *)
Lemma collectWords_be (data : list jsvalue) (ws : list Z) :
  words_are data ws ->
  forall allBytes, collectWords data allBytes = Return (allBytes ++ flat_map be_bytes ws).
Proof.
  induction 1 as [|wordFelt w data ws [Hw Hpos] _ IH]; intro allBytes; simpl.
  - now rewrite app_nil_r.
  - rewrite (wordBytes_be _ _ Hw Hpos). simpl.
    rewrite IH. now rewrite app_assoc.
Qed.

Lemma decodeWords_be (H : Host) (data : list jsvalue) (ws : list Z) :
  words_are data ws ->
  forall result,
    decodeWords H data result
    = Return (result ++ flat_map (fun w => bytesToString H (be_bytes w)) ws).
Proof.
  induction 1 as [|wordFelt w data ws [Hw Hpos] _ IH]; intro result; simpl.
  - now rewrite app_nil_r.
  - rewrite (wordBytes_be _ _ Hw Hpos). simpl.
    rewrite IH. now rewrite app_assoc.
Qed.

(** The pending block, when its guards pass: the first [n] bytes that
    [hexToBytes] reads from the padded hex text of the pending word. *)
Lemma pendingBytes_slice (pending_word pending_word_len : jsvalue) (m n : Z) :
  truthy pending_word = true ->
  parseInt pending_word_len = Return (Some n) -> 0 < n ->
  BigInt pending_word = Return m ->
  pendingBytes pending_word pending_word_len
  = (bytes <- hexToBytes (pad_even (int_toString 16 m)) ;;
     Return (Some (firstn (Z.to_nat n) bytes))).
Proof.
  intros Hpw Hlen Hn Hm. unfold pendingBytes, wordBytes.
  rewrite Hpw, (parseInt_positive_truthy _ _ Hlen Hn), Hlen, Hm. cbn [andb bind].
  apply Z.ltb_lt in Hn. now rewrite Hn.
Qed.

Lemma pendingBytes_be (pending_word pending_word_len : jsvalue) (m n : Z) :
  truthy pending_word = true ->
  parseInt pending_word_len = Return (Some n) -> 0 < n ->
  BigInt pending_word = Return m -> 0 <= m ->
  pendingBytes pending_word pending_word_len
  = Return (Some (firstn (Z.to_nat n) (be_bytes m))).
Proof.
  intros Hpw Hlen Hn Hm Hpos.
  rewrite (pendingBytes_slice _ _ m n Hpw Hlen Hn Hm).
  now rewrite hexToBytes_word.
Qed.

(** The pending block, when the declared length is zero. *)
Lemma pendingBytes_zero (pending_word pending_word_len : jsvalue) :
  parseInt pending_word_len = Return (Some 0) ->
  pendingBytes pending_word pending_word_len = Return None.
Proof.
  intro Hlen. unfold pendingBytes. rewrite Hlen.
  now destruct (truthy pending_word && truthy pending_word_len).
Qed.

Lemma be_bytes_full (w : Z) : full_word w -> length (be_bytes w) = 31%nat.
Proof.
  intro Hw. unfold be_bytes, digits_be. rewrite length_rev.
  apply (digits_le_length 256 ltac:(lia) 30). exact Hw.
Qed.

Lemma digits_le_length_ge (base : Z) (k : nat) :
  2 <= base ->
  forall n, base ^ Z.of_nat k <= n -> (k < length (digits_le base n))%nat.
Proof.
  intro Hbase. induction k as [|k IH]; intros n Hn.
  - change (Z.of_nat 0) with 0 in Hn. rewrite Z.pow_0_r in Hn.
    rewrite digits_le_unfold by lia.
    destruct (n <? base); simpl; lia.
  - replace (Z.of_nat (S k)) with (Z.succ (Z.of_nat k)) in Hn by lia.
    rewrite Z.pow_succ_r in Hn by lia.
    assert (Hpos : 0 < base ^ Z.of_nat k) by (apply Z.pow_pos_nonneg; lia).
    rewrite digits_le_unfold by nia.
    assert (Hlt : (n <? base) = false) by (apply Z.ltb_ge; nia).
    rewrite Hlt. simpl.
    assert (base ^ Z.of_nat k <= n / base) by (apply Z.div_le_lower_bound; lia).
    specialize (IH (n / base) ltac:(lia)). lia.
Qed.

Lemma be_bytes_at_least (m n : Z) :
  0 < n -> 256 ^ (n - 1) <= m -> (Z.to_nat n <= length (be_bytes m))%nat.
Proof.
  intros Hn Hm. unfold be_bytes, digits_be. rewrite length_rev.
  pose proof (digits_le_length_ge 256 (Z.to_nat (n - 1)) ltac:(lia) m) as Hlen.
  rewrite Z2Nat.id in Hlen by lia.
  specialize (Hlen Hm). lia.
Qed.

Lemma length_full_words (ws : list Z) :
  Forall full_word ws -> length (flat_map be_bytes ws) = (31 * length ws)%nat.
Proof.
  induction 1 as [|w ws Hw _ IH]; [reflexivity|].
  cbn [flat_map]. rewrite length_app, be_bytes_full, IH by exact Hw.
  cbn [length]. lia.
Qed.

(** [decodeCairoByteArrayContent] hands the collected bytes to the CBOR
    decoder and falls back to their text. *)
Lemma decodeCairoByteArrayContent_collect (H : Host) (v : jsvalue) (bytes : list Z) :
  isCairoByteArray v = true ->
  collectBytes v = Return bytes ->
  decodeCairoByteArrayContent H v
  = try_catch (decodeCbor H bytes) (fun _ => Return (VString (bytesToString H bytes))).
Proof.
  intros Hshape Hbytes. unfold decodeCairoByteArrayContent.
  rewrite Hshape, Hbytes. cbn [negb bind].
  now destruct (decodeCbor H bytes).
Qed.

(** C4, as the code has it: when [pending_word] is truthy,
    [parseInt(pending_word_len)] is [n > 0] and the pending word is the
    integer [m], exactly the first [n] bytes that [hexToBytes] reads from the
    padded hex text of [m] are appended, and bytes beyond that count are
    dropped; for [m >= 0] these are the first [n] of the big-endian bytes of
    [m], appended after the bytes of [data]. *)
Theorem pending_word_first_bytes
    (data : list jsvalue) (pending_word pending_word_len : jsvalue) (m n : Z) :
  truthy pending_word = true ->
  parseInt pending_word_len = Return (Some n) -> 0 < n ->
  BigInt pending_word = Return m ->
  pendingBytes pending_word pending_word_len
  = (bytes <- hexToBytes (pad_even (int_toString 16 m)) ;;
     Return (Some (firstn (Z.to_nat n) bytes)))
  /\ (0 <= m ->
      hexToBytes (pad_even (int_toString 16 m)) = Return (be_bytes m)
      /\ pendingBytes pending_word pending_word_len
         = Return (Some (firstn (Z.to_nat n) (be_bytes m)))
      /\ (forall allBytes,
            collectWords data [] = Return allBytes ->
            collectBytes (byteArrayRecord data pending_word pending_word_len)
            = Return (allBytes ++ firstn (Z.to_nat n) (be_bytes m)))
      /\ (forall H result,
            decodeWords H data [] = Return result ->
            decodeCairoByteArray H (byteArrayRecord data pending_word pending_word_len)
            = Return (VString (result
                                ++ bytesToString H (firstn (Z.to_nat n) (be_bytes m)))))).
Proof.
  intros Hpw Hlen Hn Hm.
  split; [now apply pendingBytes_slice|]. intro Hpos.
  pose proof (pendingBytes_be _ _ m n Hpw Hlen Hn Hm Hpos) as Hpending.
  split; [now apply hexToBytes_word|]. split; [exact Hpending|]. split.
  - intros allBytes Hdata. unfold collectBytes.
    destruct (record_fields data pending_word pending_word_len) as (_ & -> & -> & ->).
    cbn [items_of]. rewrite Hdata. simpl. now rewrite Hpending.
  - intros H result Hdata. unfold decodeCairoByteArray.
    destruct (record_fields data pending_word pending_word_len) as (-> & -> & -> & ->).
    cbn [items_of negb]. rewrite Hdata. simpl. now rewrite Hpending.
Qed.

(** The pending word 0x414243 with length 2 contributes the bytes of "AB". *)
Lemma pending_word_first_bytes_witness :
  collectBytes (byteArrayRecord [VBigInt 72] (VBigInt 4276803) (VNumber (Int 2)))
  = Return [72; 65; 66].
Proof.
  refine (proj1 (proj2 (proj2 (proj2
            (pending_word_first_bytes [VBigInt 72] (VBigInt 4276803) (VNumber (Int 2))
               4276803 2 eq_refl eq_refl eq_refl eq_refl) _))) [72] eq_refl).
  lia.
Defined.

(** C4 as the claim states it fails: with the pending word [0n] and
    [pending_word_len] 1 the padded hex text "00" spells the byte 0, but the
    guard [pending_word && pending_word_len] skips the block and nothing is
    appended. *)
Lemma pending_word_zero_counterexample :
  (bytes <- hexToBytes (pad_even (int_toString 16 0)) ;; Return (firstn 1 bytes))
  = Return [0]
  /\ pendingBytes (VBigInt 0) (VNumber (Int 1)) = Return None
  /\ collectBytes (byteArrayRecord [VBigInt 72] (VBigInt 0) (VNumber (Int 1)))
     = Return [72].
Proof.
  repeat split; vm_compute; reflexivity.
Qed.

(** C2, as the code has it: when every word of [data] fills its 31 bytes
    (its first byte is not zero), [parseInt(pending_word_len)] is [n] in
    [0, 30] and, for [n > 0], the pending word is an integer of at least
    [n] bytes, the byte sequence that
    [decodeCairoByteArrayContent] collects and hands to the CBOR decoder has
    length [31 * data.length + n]. *)
Theorem reassembled_length
    (data : list jsvalue) (ws : list Z) (pending_word pending_word_len : jsvalue) (n : Z) :
  Forall2 (fun wordFelt w => BigInt wordFelt = Return w /\ full_word w) data ws ->
  parseInt pending_word_len = Return (Some n) -> 0 <= n <= 30 ->
  (0 < n -> exists m, BigInt pending_word = Return m /\ 256 ^ (n - 1) <= m) ->
  exists bytes,
    collectBytes (byteArrayRecord data pending_word pending_word_len) = Return bytes
    /\ Z.of_nat (length bytes) = 31 * Z.of_nat (length data) + n
    /\ forall H,
         decodeCairoByteArrayContent H (byteArrayRecord data pending_word pending_word_len)
         = try_catch (decodeCbor H bytes)
             (fun _ => Return (VString (bytesToString H bytes))).
Proof.
  intros Hdata Hlen Hn Hpending.
  assert (Hwords : words_are data ws).
  { eapply Forall2_impl; [|exact Hdata].
    intros wordFelt w [Hw Hfull]. split; [exact Hw|]. unfold full_word in Hfull. lia. }
  assert (Hfull : Forall full_word ws).
  { clear -Hdata. induction Hdata as [|wordFelt w data ws [_ Hw] _ IH]; constructor; assumption. }
  assert (Hcount : length data = length ws) by (eapply Forall2_length; exact Hdata).
  assert (Hcollect : exists bytes,
             collectBytes (byteArrayRecord data pending_word pending_word_len) = Return bytes
             /\ Z.of_nat (length bytes) = 31 * Z.of_nat (length data) + n).
  { unfold collectBytes.
    destruct (record_fields data pending_word pending_word_len) as (_ & -> & -> & ->).
    cbn [items_of]. rewrite (collectWords_be data ws Hwords). cbn [bind app].
    destruct (Z.eq_dec n 0) as [->|Hnz].
    - rewrite (pendingBytes_zero _ _ Hlen).
      eexists; split; [reflexivity|].
      rewrite length_full_words by exact Hfull. lia.
    - destruct (Hpending ltac:(lia)) as (m & Hm & Hbig).
      assert (Hpos : 0 < m).
      { assert (0 < 256 ^ (n - 1)) by (apply Z.pow_pos_nonneg; lia). lia. }
      pose proof (BigInt_positive_truthy _ _ Hm Hpos) as Hpw.
      rewrite (pendingBytes_be _ _ m n Hpw Hlen ltac:(lia) Hm ltac:(lia)).
      eexists; split; [reflexivity|].
      rewrite length_app, length_firstn, length_full_words by exact Hfull.
      pose proof (be_bytes_at_least m n ltac:(lia) Hbig). lia. }
  destruct Hcollect as (bytes & Hbytes & Hlength).
  exists bytes. split; [exact Hbytes|]. split; [exact Hlength|].
  intro H. apply decodeCairoByteArrayContent_collect; [reflexivity|exact Hbytes].
Qed.

(** One full word (31 bytes "A") and the pending word 0x4142 with length 2
    give 33 bytes. *)
Lemma reassembled_length_witness :
  exists bytes,
    collectBytes (byteArrayRecord [VBigInt (of_digits_be 256 (repeat 65 31))]
                    (VBigInt 16706) (VNumber (Int 2))) = Return bytes
    /\ Z.of_nat (length bytes) = 31 * Z.of_nat 1 + 2.
Proof.
  destruct (reassembled_length
              [VBigInt (of_digits_be 256 (repeat 65 31))]
              [of_digits_be 256 (repeat 65 31)]
              (VBigInt 16706) (VNumber (Int 2)) 2) as (bytes & Hbytes & Hlength & _).
  - constructor; [|constructor]. split; [reflexivity|].
    split; [apply Z.leb_le|apply Z.ltb_lt]; vm_compute; reflexivity.
  - reflexivity.
  - lia.
  - intros _. exists 16706. split; [reflexivity|]. vm_compute. discriminate.
  - exists bytes. split; [exact Hbytes|exact Hlength].
Defined.

(** C2 as the claim states it fails: the word 65 (thirty zero bytes and an
    "A") is rendered "41" and gives one byte, not 31; and a pending word
    [0n] of declared length 1 gives no byte. *)
Lemma reassembled_length_counterexample :
  0 <= 65 < 2 ^ 248
  /\ collectBytes (byteArrayRecord [VBigInt 65] (VBigInt 0) (VNumber (Int 0))) = Return [65]
  /\ Z.of_nat (length [65]) <> 31 * 1 + 0
  /\ collectBytes (byteArrayRecord [] (VBigInt 0) (VNumber (Int 1))) = Return []
  /\ Z.of_nat (length (@nil Z)) <> 31 * 0 + 1.
Proof.
  split; [split; [lia|apply Z.ltb_lt; vm_compute; reflexivity]|].
  repeat split; try (vm_compute; reflexivity); vm_compute; discriminate.
Qed.

(** ** Negative words *)

Lemma parse_sign_table :
  forallb (fun d =>
    match parseInt_string (Some 16) [45; digit_char d] with
    | Some v => v =? - d
    | None => false
    end) hex_range = true.
Proof. vm_compute. reflexivity. Qed.

(** [parseInt] accepts a sign: "-d" reads as [-d], not as NaN. *)
Lemma parse_sign_digit (d : Z) :
  0 <= d < 16 -> parseInt_string (Some 16) [45; digit_char d] = Some (- d).
Proof.
  intro Hd.
  pose proof parse_sign_table as Htable.
  rewrite forallb_forall in Htable.
  specialize (Htable d (in_hex_range d Hd)).
  destruct (parseInt_string (Some 16) [45; digit_char d]) as [v|]; [|discriminate].
  apply Z.eqb_eq in Htable. now subst v.
Qed.

Lemma pair_induction (A : Type) (P : list A -> Prop) :
  P [] -> (forall a, P [a]) -> (forall a b l, P l -> P (a :: b :: l)) ->
  forall l, P l.
Proof.
  intros Hnil Hone Hstep.
  fix rec 1.
  intros [|a [|b l]]; [exact Hnil|apply Hone|apply Hstep, rec].
Qed.

(** An even run of hex digits is read without an error. *)
Lemma hexToBytes_loop_digits (ds : list Z) :
  Forall (fun d => 0 <= d < 16) ds -> Nat.even (length ds) = true ->
  forall i, exists bytes, hexToBytes_loop i (map digit_char ds) = Return bytes.
Proof.
  induction ds as [| a | a b ds IH] using pair_induction; intros Hds Heven i.
  - now exists [].
  - discriminate Heven.
  - inversion Hds as [|? ? Ha Hds']; subst.
    inversion Hds' as [|? ? Hb Hds'']; subst. cbv beta in Ha, Hb.
    cbn [map hexToBytes_loop]. rewrite (parse_pair a b Ha Hb).
    destruct (IH Hds'' Heven (i + 2)) as [bytes ->].
    cbn [bind]. eauto.
Qed.

Lemma pad_even_even (s : jsstring) : Nat.even (length (pad_even s)) = true.
Proof.
  unfold pad_even. destruct (Nat.even (length s)) eqn:He; [exact He|].
  cbn [length]. rewrite Nat.even_succ. unfold Nat.odd. now rewrite He.
Qed.

Lemma pad_even_idempotent (s : jsstring) : pad_even (pad_even s) = pad_even s.
Proof. unfold pad_even at 1. now rewrite pad_even_even. Qed.

(** A negative word is not rejected: its signed hex text is read pair by
    pair, the pair with the sign as a negative number or as zero, and bytes
    come out. *)
Lemma negative_word_gives_bytes (wordFelt : jsvalue) (w : Z) :
  BigInt wordFelt = Return w -> w < 0 ->
  exists bytes, wordBytes wordFelt = Return bytes.
Proof.
  intros Hw Hneg. unfold wordBytes, hexToBytes. rewrite Hw. cbn [bind].
  rewrite pad_even_idempotent. unfold int_toString.
  assert (Hlt : (w <? 0) = true) by (apply Z.ltb_lt; lia). rewrite Hlt.
  assert (Hr : 2 <= 16 <= 36) by lia.
  pose proof (digits_be_range 16 Hr (- w) ltac:(lia)) as Hrange.
  pose proof (digits_be_nonempty 16 Hr (- w) ltac:(lia)) as Hne.
  destruct (digits_be 16 (- w)) as [|d ds]; [now elim Hne|].
  inversion Hrange as [|? ? Hd Hds]; subst. cbv beta in Hd.
  unfold pad_even. cbn [map length].
  rewrite length_map.
  destruct (Nat.even (S (S (length ds)))) eqn:Heven.
  - (* an odd number of digits: the first pair is the sign and a digit *)
    cbn [hexToBytes_loop]. rewrite (parse_sign_digit d Hd).
    destruct (hexToBytes_loop_digits ds Hds Heven (0 + 2)) as [bytes ->].
    cbn [bind]. eauto.
  - (* an even number of digits: the first pair is the padding and the sign *)
    change (hexToBytes_loop 0 (48 :: 45 :: digit_char d :: map digit_char ds))
      with (match parseInt_string (Some 16) [48; 45] with
            | None => Throw (Exn Error (js "Invalid hex string at position "
                                         ++ int_toString 10 0 ++ js ": " ++ [48; 45]))
            | Some byteValue =>
                bytes <- hexToBytes_loop (0 + 2) (map digit_char (d :: ds)) ;;
                Return (toUint8 byteValue :: bytes)
            end).
    change (parseInt_string (Some 16) [48; 45]) with (Some 0).
    assert (Hlen : Nat.even (length (d :: ds)) = true).
    { change (Nat.even (length ds) = false) in Heven.
      cbn [length]. rewrite Nat.even_succ. unfold Nat.odd. now rewrite Heven. }
    destruct (hexToBytes_loop_digits (d :: ds) Hrange Hlen (0 + 2)) as [bytes ->].
    cbn [bind]. eauto.
Qed.

(** * More properties of the code *)

(** ** [hexToBytes] *)

Lemma is_digit_16_cases (c : Z) :
  is_digit 16 c = true ->
  48 <= c <= 57 \/ 97 <= c <= 102 \/ 65 <= c <= 70.
Proof.
  unfold is_digit, digit_val.
  case_test (48 <=? c) Z.leb_le Z.leb_gt; case_test (c <=? 57) Z.leb_le Z.leb_gt;
    case_test (97 <=? c) Z.leb_le Z.leb_gt; case_test (c <=? 122) Z.leb_le Z.leb_gt;
    case_test (65 <=? c) Z.leb_le Z.leb_gt; case_test (c <=? 90) Z.leb_le Z.leb_gt;
    cbn [andb]; intro Hd; try discriminate Hd; apply Z.ltb_lt in Hd; lia.
Qed.

Lemma in_hex_chars (c : Z) : is_digit 16 c = true -> In c hex_chars.
Proof.
  intro Hc. apply is_digit_16_cases in Hc.
  assert (Hnat : c = Z.of_nat (Z.to_nat c)) by lia.
  assert (Hlist : In (Z.to_nat c) (seq 48 10 ++ seq 97 6 ++ seq 65 6)).
  { rewrite !in_app_iff, !in_seq. lia. }
  rewrite Hnat. apply (in_map Z.of_nat) in Hlist.
  exact Hlist.
Qed.

Lemma hex_pair_table :
  forallb (fun a =>
    forallb (fun b =>
      match parseInt_string (Some 16) [a; b] with
      | Some v => v =? hexval a * 16 + hexval b
      | None => false
      end) hex_chars) hex_chars = true.
Proof. vm_compute. reflexivity. Qed.

(** [parseInt] of two hex digits, of either case, is the byte they spell. *)
Lemma parse_hex_pair (a b : Z) :
  is_digit 16 a = true -> is_digit 16 b = true ->
  parseInt_string (Some 16) [a; b] = Some (hexval a * 16 + hexval b).
Proof.
  intros Ha Hb.
  pose proof hex_pair_table as Htable.
  rewrite forallb_forall in Htable.
  specialize (Htable a (in_hex_chars a Ha)).
  rewrite forallb_forall in Htable.
  specialize (Htable b (in_hex_chars b Hb)).
  destruct (parseInt_string (Some 16) [a; b]) as [v|]; [|discriminate].
  apply Z.eqb_eq in Htable. now subst v.
Qed.

Lemma hexval_range (c : Z) : is_digit 16 c = true -> 0 <= hexval c < 16.
Proof.
  intro Hc. pose proof (is_digit_16_cases c Hc) as Hcases.
  unfold hexval, digit_val.
  unfold is_digit, digit_val in Hc.
  case_test (48 <=? c) Z.leb_le Z.leb_gt; case_test (c <=? 57) Z.leb_le Z.leb_gt;
    case_test (97 <=? c) Z.leb_le Z.leb_gt; case_test (c <=? 122) Z.leb_le Z.leb_gt;
    case_test (65 <=? c) Z.leb_le Z.leb_gt; case_test (c <=? 90) Z.leb_le Z.leb_gt;
    cbn [andb] in *; lia.
Qed.

(** The loop on an even run of hex digits. *)
Lemma hexToBytes_loop_hex (s : jsstring) :
  forallb (is_digit 16) s = true -> Nat.even (length s) = true ->
  forall i, hexToBytes_loop i s = Return (pair_bytes s).
Proof.
  induction s as [| a | a b s IH] using pair_induction; intros Hs Heven i.
  - reflexivity.
  - discriminate Heven.
  - cbn [forallb] in Hs. apply andb_true_iff in Hs. destruct Hs as [Ha Hs].
    apply andb_true_iff in Hs. destruct Hs as [Hb Hs].
    cbn [hexToBytes_loop pair_bytes]. rewrite (parse_hex_pair a b Ha Hb).
    rewrite (IH Hs Heven). cbn [bind]. f_equal. f_equal.
    pose proof (hexval_range a Ha). pose proof (hexval_range b Hb).
    unfold toUint8. apply Z.mod_small. lia.
Qed.

Lemma pad_even_hex (s : jsstring) :
  forallb (is_digit 16) s = true -> forallb (is_digit 16) (pad_even s) = true.
Proof.
  intro Hs. unfold pad_even. destruct (Nat.even (length s)); [exact Hs|].
  cbn [forallb]. now rewrite Hs.
Qed.

Lemma hexToBytes_hex (s : jsstring) :
  forallb (is_digit 16) s = true -> hexToBytes s = Return (pair_bytes (pad_even s)).
Proof.
  intro Hs. unfold hexToBytes.
  apply hexToBytes_loop_hex; [now apply pad_even_hex|apply pad_even_even].
Qed.

Lemma hexToBytes_loop_length (s : jsstring) :
  forall i bytes,
    hexToBytes_loop i s = Return bytes ->
    length bytes = Nat.div2 (S (length s))
    /\ Forall (fun b => 0 <= b < 256) bytes.
Proof.
  induction s as [| a | a b s IH] using pair_induction; intros i bytes Hrun.
  - inversion Hrun. split; [reflexivity|constructor].
  - cbn [hexToBytes_loop] in Hrun.
    destruct (parseInt_string (Some 16) [a]) as [v|]; [|discriminate].
    inversion Hrun. split; [reflexivity|].
    constructor; [apply Z.mod_pos_bound; lia|constructor].
  - cbn [hexToBytes_loop] in Hrun.
    destruct (parseInt_string (Some 16) [a; b]) as [v|]; [|discriminate].
    destruct (hexToBytes_loop (i + 2) s) as [rest|e] eqn:Hrest; [|discriminate].
    inversion Hrun. destruct (IH (i + 2) rest Hrest) as [Hlen Hrange].
    split; [cbn [length Nat.div2]; now rewrite Hlen|].
    constructor; [apply Z.mod_pos_bound; lia|exact Hrange].
Qed.

Lemma div2_pad_even (s : jsstring) :
  Nat.div2 (S (length (pad_even s))) = Nat.div2 (S (length s)).
Proof.
  induction s as [| a | a b s IH] using pair_induction; try reflexivity.
  unfold pad_even in *. cbn [length Nat.even] in *.
  destruct (Nat.even (length s)); cbn [length Nat.div2] in *; congruence.
Qed.

(** X2: whatever [hexToBytes] returns has one byte for every two characters
    of the text, rounded up, and every byte lies in [0, 255]. *)
Theorem hexToBytes_length (hex : jsstring) (bytes : list Z) :
  hexToBytes hex = Return bytes ->
  length bytes = Nat.div2 (S (length hex))
  /\ Forall (fun b => 0 <= b < 256) bytes.
Proof.
  unfold hexToBytes. intro Hrun.
  destruct (hexToBytes_loop_length _ _ _ Hrun) as [Hlen Hrange].
  split; [|exact Hrange]. rewrite Hlen. apply div2_pad_even.
Qed.

Lemma hexToBytes_length_witness :
  length [10; 188] = Nat.div2 (S (length (js "abc")))
  /\ Forall (fun b => 0 <= b < 256) [10; 188].
Proof.
  exact (hexToBytes_length (js "abc") [10; 188] eq_refl).
Defined.

Lemma pair_bytes_hexval (l : jsstring) :
  forall m, map hexval l = map hexval m -> pair_bytes l = pair_bytes m.
Proof.
  induction l as [| a | a b l IH] using pair_induction; intros [|c [|d m]] Hm;
    try discriminate Hm; try reflexivity.
  cbn [map] in Hm. injection Hm as Ha Hb Hrest.
  cbn [pair_bytes]. now rewrite Ha, Hb, (IH m Hrest).
Qed.

(** X3: on a text of hex digits [hexToBytes] never raises, and it reads
    upper and lower case alike: two texts with the same digit values give
    the same bytes. *)
Theorem hexToBytes_hex_digits (s t : jsstring) :
  forallb (is_digit 16) s = true ->
  (exists bytes, hexToBytes s = Return bytes)
  /\ (forallb (is_digit 16) t = true -> map hexval s = map hexval t ->
      hexToBytes s = hexToBytes t).
Proof.
  intro Hs. split; [rewrite (hexToBytes_hex s Hs); eauto|].
  intros Ht Hsame.
  rewrite (hexToBytes_hex s Hs), (hexToBytes_hex t Ht). f_equal.
  assert (Hlen : length s = length t).
  { rewrite <- (length_map hexval s), Hsame. apply length_map. }
  assert (Hpad : map hexval (pad_even s) = map hexval (pad_even t)).
  { unfold pad_even. rewrite Hlen. destruct (Nat.even (length t)); [exact Hsame|].
    cbn [map]. now rewrite Hsame. }
  now apply pair_bytes_hexval.
Qed.

Lemma hexToBytes_hex_digits_witness :
  hexToBytes (js "A1ff") = hexToBytes (js "a1FF").
Proof.
  exact (proj2 (hexToBytes_hex_digits (js "A1ff") (js "a1FF") eq_refl) eq_refl eq_refl).
Defined.

Lemma startsWith_nil (s : jsstring) : startsWith s [] = true.
Proof. now destruct s. Qed.

(** X1: [hexToBytes] inverts the two-digit hex rendering of bytes, and the
    hex path of [decodeCborMetadata] hands exactly those bytes to the
    decoder, with or without the "0x" prefix. *)
Theorem hexToBytes_round_trip (H : Host) (bytes : list Z) :
  Forall (fun b => 0 <= b < 256) bytes ->
  hexToBytes (bytesToHex bytes) = Return bytes
  /\ (bytes <> [] ->
      decodeCborMetadata H (VString (js "0x" ++ bytesToHex bytes))
      = try_catch (decodeCbor H bytes) rethrow).
Proof.
  intro Hrange. pose proof (hexToBytes_nibbles bytes Hrange) as Hback.
  split; [exact Hback|]. intro Hne.
  apply decodeCborMetadata_hex.
  - change (is_hex_string (js "0x" ++ bytesToHex bytes))
      with (all_digits 16 (bytesToHex bytes)).
    unfold all_digits, bytesToHex.
    destruct bytes as [|b bytes]; [now elim Hne|].
    cbn [flat_map nibbles_be app map].
    change (digit_char (b / 16) :: digit_char (b mod 16)
              :: map digit_char (flat_map nibbles_be bytes))
      with (map digit_char (flat_map nibbles_be (b :: bytes))).
    apply forallb_digit_chars; [lia|].
    apply Forall_flat_map. eapply Forall_impl; [|exact Hrange].
    intros x Hx. now apply nibbles_be_range.
  - replace (startsWith (js "0x" ++ bytesToHex bytes) (js "0x")) with true
      by (symmetry; apply (startsWith_nil (bytesToHex bytes))).
    exact Hback.
Qed.

Lemma hexToBytes_round_trip_witness :
  hexToBytes (bytesToHex [161; 0; 255]) = Return [161; 0; 255].
Proof.
  refine (proj1 (hexToBytes_round_trip Reference.host [161; 0; 255] _)).
  repeat constructor; lia.
Defined.

Lemma hex_not_whitespace (a : Z) : is_digit 16 a = true -> is_whitespace a = false.
Proof. intro Ha. apply is_digit_16_cases in Ha. apply not_whitespace. lia. Qed.

(** [parseInt] stops at the first character that is no digit: a hex digit
    followed by another character is read as the digit alone. *)
Lemma parse_trailing (a b : Z) :
  is_digit 16 a = true -> is_digit 16 b = false ->
  (a = 48 -> b <> 120 /\ b <> 88) ->
  parseInt_string (Some 16) [a; b] = Some (hexval a).
Proof.
  intros Ha Hb Hprefix.
  pose proof (is_digit_16_cases a Ha) as Hcases.
  unfold parseInt_string. cbn [trimStart]. rewrite (hex_not_whitespace a Ha).
  assert (H45 : (a =? 45) = false) by (apply Z.eqb_neq; lia).
  assert (H43 : (a =? 43) = false) by (apply Z.eqb_neq; lia).
  rewrite H45, H43. cbn [orb].
  change (16 =? 0) with false. cbv iota.
  change (16 <? 2) with false. change (36 <? 16) with false.
  change (16 =? 16) with true. cbn [orb andb].
  assert (Hp : (a =? 48) && ((b =? 120) || (b =? 88)) = false).
  { destruct (Z.eqb_spec a 48) as [E|E]; [|reflexivity].
    destruct (Hprefix E) as [H1 H2].
    apply Z.eqb_neq in H1, H2. now rewrite H1, H2. }
  rewrite Hp. cbn [take_digits]. rewrite Ha, Hb.
  unfold digits_value. cbn [fold_left]. unfold hexval.
  f_equal. destruct (digit_val a); lia.
Qed.

(** X4: [hexToBytes] checks each pair with [parseInt] only, so a pair whose
    first character is a hex digit passes whatever follows it (other than
    the prefix 0x or 0X): the byte is the value of that one digit, and no
    error is raised. *)
Theorem hexToBytes_lenient (a b : Z) (rest : jsstring) :
  is_digit 16 a = true -> is_digit 16 b = false ->
  (a = 48 -> b <> 120 /\ b <> 88) ->
  forallb (is_digit 16) rest = true -> Nat.even (length rest) = true ->
  hexToBytes (a :: b :: rest) = Return (hexval a :: pair_bytes rest).
Proof.
  intros Ha Hb Hprefix Hrest Heven.
  unfold hexToBytes, pad_even. cbn [length Nat.even]. rewrite Heven.
  cbn [hexToBytes_loop]. rewrite (parse_trailing a b Ha Hb Hprefix).
  rewrite (hexToBytes_loop_hex rest Hrest Heven). cbn [bind].
  pose proof (hexval_range a Ha). unfold toUint8.
  rewrite Z.mod_small by lia. reflexivity.
Qed.

Lemma hexToBytes_lenient_witness :
  hexToBytes (js "1g2a") = Return [1; 42].
Proof.
  refine (hexToBytes_lenient 49 103 (js "2a") eq_refl eq_refl _ eq_refl eq_refl).
  intro E. discriminate E.
Defined.

(** ** The hex pattern of [decodeCborMetadata] *)

Lemma is_hex_string_one (a : Z) : is_hex_string [a] = all_digits 16 [a].
Proof.
  unfold is_hex_string. destruct a as [|p|p]; try reflexivity.
  do 6 (destruct p as [p|p|]; try reflexivity).
Qed.

Lemma is_hex_string_cons2 (a b : Z) (rest : jsstring) :
  is_hex_string (a :: b :: rest)
  = if (a =? 48) && (b =? 120) then all_digits 16 rest
    else all_digits 16 (a :: b :: rest).
Proof.
  destruct (Z.eqb_spec a 48) as [Ea|Ea]; cbn [andb].
  - subst a. destruct (Z.eqb_spec b 120) as [Eb|Eb]; [now subst b|].
    unfold is_hex_string.
    destruct b as [|p|p]; try reflexivity.
    do 7 (destruct p as [p|p|]; try reflexivity). now elim Eb.
  - unfold is_hex_string.
    destruct a as [|p|p]; try reflexivity.
    do 6 (destruct p as [p|p|]; try reflexivity). now elim Ea.
Qed.

Lemma all_digits_forallb (radix : Z) (s : jsstring) :
  all_digits radix s = true <-> s <> [] /\ forallb (is_digit radix) s = true.
Proof.
  destruct s as [|c s]; cbn [all_digits]; split.
  - discriminate.
  - now intros [Hne _].
  - intro Hs. split; [discriminate|exact Hs].
  - now intros [_ Hs].
Qed.

Lemma startsWith_0x (a b : Z) (rest : jsstring) :
  startsWith (a :: b :: rest) (js "0x") = (a =? 48) && (b =? 120).
Proof.
  change (startsWith (a :: b :: rest) (js "0x"))
    with ((a =? 48) && ((b =? 120) && startsWith rest [])).
  now rewrite startsWith_nil, andb_true_r.
Qed.

(** A run of hex digits matches the pattern and carries no prefix. *)
Lemma is_hex_string_digits (s : jsstring) :
  all_digits 16 s = true ->
  is_hex_string s = true /\ startsWith s (js "0x") = false.
Proof.
  intro Hs. destruct s as [|a [|b rest]].
  - discriminate Hs.
  - split; [now rewrite is_hex_string_one|].
    cbn. now rewrite andb_false_r.
  - rewrite is_hex_string_cons2, startsWith_0x.
    assert (Hb : (b =? 120) = false).
    { apply all_digits_forallb in Hs. destruct Hs as [_ Hs].
      cbn [forallb] in Hs. apply andb_true_iff in Hs. destruct Hs as [_ Hs].
      apply andb_true_iff in Hs. destruct Hs as [Hb _].
      apply is_digit_16_cases in Hb. apply Z.eqb_neq. lia. }
    rewrite Hb, andb_false_r. split; [exact Hs|reflexivity].
Qed.

(** What is left of a text that matches the pattern, once the prefix is
    cut, is a run of hex digits. *)
Lemma is_hex_string_strip (s : jsstring) :
  is_hex_string s = true ->
  forallb (is_digit 16) (if startsWith s (js "0x") then slice_from 2 s else s) = true.
Proof.
  intro Hs. destruct s as [|a [|b rest]].
  - discriminate Hs.
  - replace (startsWith [a] (js "0x")) with false
      by (cbn; now rewrite andb_false_r).
    rewrite is_hex_string_one in Hs. now apply all_digits_forallb in Hs.
  - rewrite is_hex_string_cons2 in Hs. rewrite startsWith_0x.
    destruct ((a =? 48) && (b =? 120)); now apply all_digits_forallb in Hs.
Qed.

(** X5: on a non-empty run of hex digits [decodeCborMetadata] hands the
    bytes that the digit pairs spell to the decoder, and the same text
    behind the prefix 0x gives the same outcome: the prefix carries no
    information. *)
Theorem decodeCborMetadata_hex_digits (H : Host) (s : jsstring) :
  all_digits 16 s = true ->
  decodeCborMetadata H (VString s)
  = try_catch (decodeCbor H (pair_bytes (pad_even s))) rethrow
  /\ decodeCborMetadata H (VString (js "0x" ++ s)) = decodeCborMetadata H (VString s).
Proof.
  intro Hs. destruct (is_hex_string_digits s Hs) as [Hhex Hprefix].
  pose proof (proj2 (proj1 (all_digits_forallb 16 s) Hs)) as Hdigits.
  assert (Hplain : decodeCborMetadata H (VString s)
                   = try_catch (decodeCbor H (pair_bytes (pad_even s))) rethrow).
  { apply decodeCborMetadata_hex; [exact Hhex|].
    rewrite Hprefix. now apply hexToBytes_hex. }
  split; [exact Hplain|]. rewrite Hplain.
  apply decodeCborMetadata_hex.
  - change (js "0x" ++ s) with (48 :: 120 :: s). now rewrite is_hex_string_cons2.
  - change (js "0x" ++ s) with (48 :: 120 :: s). rewrite startsWith_0x.
    now apply hexToBytes_hex.
Qed.

Lemma decodeCborMetadata_hex_digits_witness :
  decodeCborMetadata Reference.host (VString (js "0x6449726f6e"))
  = decodeCborMetadata Reference.host (VString (js "6449726f6e")).
Proof.
  exact (proj2 (decodeCborMetadata_hex_digits Reference.host (js "6449726f6e") eq_refl)).
Defined.

(** X6: the error of [hexToBytes] is out of reach of its callers.  A text
    that passed the hex pattern of [decodeCborMetadata] is always read, and
    the hex rendering of a word that [BigInt] accepted is always read, also
    that of a negative word: the Cairo decoders fail on a word only where
    [BigInt] fails. *)
Theorem hexToBytes_error_unreachable :
  (forall s, is_hex_string s = true ->
     exists bytes,
       hexToBytes (if startsWith s (js "0x") then slice_from 2 s else s) = Return bytes)
  /\ (forall wordFelt e, wordBytes wordFelt = Throw e -> BigInt wordFelt = Throw e).
Proof.
  split.
  - intros s Hs. eexists. apply hexToBytes_hex, is_hex_string_strip, Hs.
  - intros w e Hthrow. destruct (BigInt w) as [n|e'] eqn:Hn.
    + destruct (Z.lt_ge_cases n 0) as [Hneg|Hpos].
      * destruct (negative_word_gives_bytes w n Hn Hneg) as [bytes Hbytes].
        rewrite Hbytes in Hthrow. discriminate Hthrow.
      * rewrite (wordBytes_be w n Hn Hpos) in Hthrow. discriminate Hthrow.
    + rewrite (wordBytes_throws w e' Hn) in Hthrow. now injection Hthrow as ->.
Qed.

Lemma hexToBytes_error_unreachable_witness :
  exists bytes, hexToBytes (js "abc") = Return bytes.
Proof.
  exact (proj1 hexToBytes_error_unreachable (js "0xabc") eq_refl).
Defined.

(** ** Words and their bytes *)

Lemma digits_le_256_step (d n : Z) :
  0 <= d < 256 -> 0 < n -> digits_le 256 (d + 256 * n) = d :: digits_le 256 n.
Proof.
  intros Hd Hn. rewrite digits_le_256_unfold by lia.
  assert (Hge : (d + 256 * n <? 256) = false) by (apply Z.ltb_ge; lia).
  rewrite Hge. replace (d + 256 * n) with (d + n * 256) by lia.
  rewrite Z.mod_add, Z.div_add by lia.
  rewrite (Z.mod_small d 256), (Z.div_small d 256) by lia. reflexivity.
Qed.

(** The digits of the value of a little-endian byte sequence whose last
    byte is not zero are the sequence itself. *)
Lemma digits_le_256_value (ds : list Z) :
  Forall (fun d => 0 <= d < 256) ds -> last ds 0 <> 0 ->
  0 < fold_right (fun d acc => d + 256 * acc) 0 ds
  /\ digits_le 256 (fold_right (fun d acc => d + 256 * acc) 0 ds) = ds.
Proof.
  induction ds as [|d [|d' rest] IH]; intros Hrange Hlast.
  - now elim Hlast.
  - cbn [last] in Hlast. inversion Hrange as [|? ? Hd _]; subst. cbv beta in Hd.
    cbn [fold_right]. rewrite Z.mul_0_r, Z.add_0_r. split; [lia|].
    rewrite digits_le_256_unfold by lia.
    assert (Hlt : (d <? 256) = true) by (apply Z.ltb_lt; lia). now rewrite Hlt.
  - inversion Hrange as [|? ? Hd Hrange']; subst. cbv beta in Hd.
    change (last (d :: d' :: rest) 0) with (last (d' :: rest) 0) in Hlast.
    destruct (IH Hrange' Hlast) as [Hpos Hdigits].
    change (fold_right (fun d acc => d + 256 * acc) 0 (d :: d' :: rest))
      with (d + 256 * fold_right (fun d acc => d + 256 * acc) 0 (d' :: rest)).
    split; [lia|].
    rewrite (digits_le_256_step d _ Hd Hpos). now rewrite Hdigits.
Qed.

Lemma last_rev_cons (b : Z) (bs : list Z) : last (rev (b :: bs)) 0 = b.
Proof. cbn [rev]. apply last_last. Qed.

(** Canonical bytes are the big-endian bytes of their value. *)
Lemma be_bytes_of_digits (bs : list Z) :
  canonical_bytes bs -> be_bytes (of_digits_be 256 bs) = bs.
Proof.
  intros [Hrange Hhead]. destruct bs as [|b rest]; [now elim Hhead|].
  destruct (Z.eq_dec b 0) as [Hb|Hb].
  - destruct Hhead as [Hne|Hrest]; [now elim Hne|]. subst b rest. reflexivity.
  - unfold be_bytes, digits_be.
    rewrite <- (rev_involutive (b :: rest)) at 1.
    rewrite (of_digits_be_rev 256).
    destruct (digits_le_256_value (rev (b :: rest))) as [_ Hdigits].
    + apply Forall_rev. exact Hrange.
    + now rewrite last_rev_cons.
    + rewrite Hdigits. apply rev_involutive.
Qed.

Lemma of_digits_be_leading_zeros (k : nat) (bs : list Z) :
  of_digits_be 256 (repeat 0 k ++ bs) = of_digits_be 256 bs.
Proof.
  unfold of_digits_be. rewrite fold_left_app. f_equal.
  induction k as [|k IH]; [reflexivity|exact IH].
Qed.

Lemma be_bytes_canonical (n : Z) : 0 <= n -> canonical_bytes (be_bytes n).
Proof.
  intro Hn. split; [now apply be_bytes_range|].
  unfold be_bytes, digits_be.
  destruct (digits_le_last 256 ltac:(lia) n Hn) as (ds & d & Hdigits & Hd).
  rewrite Hdigits, rev_app_distr. cbn [rev app].
  destruct (Z.eq_dec n 0) as [Hz|Hz].
  - subst n. right. change (digits_le 256 0) with [0] in Hdigits.
    destruct ds as [|x [|y ds]]; [reflexivity|discriminate Hdigits|discriminate Hdigits].
  - left. specialize (Hd ltac:(lia)). lia.
Qed.

(** X7: the bytes that the Cairo decoders read from a word [n >= 0] are its
    base-256 digits, most significant first: they evaluate back to [n], each
    lies in [0, 255], and the first one is zero only for the word 0. *)
Theorem wordBytes_denote (wordFelt : jsvalue) (n : Z) :
  BigInt wordFelt = Return n -> 0 <= n ->
  exists bytes,
    wordBytes wordFelt = Return bytes
    /\ of_digits_be 256 bytes = n
    /\ canonical_bytes bytes.
Proof.
  intros Hword Hn. exists (be_bytes n).
  split; [now apply wordBytes_be|].
  split; [apply (of_digits_be_digits 256); lia|now apply be_bytes_canonical].
Qed.

Lemma wordBytes_denote_witness :
  exists bytes,
    wordBytes (VString (js "0x4869")) = Return bytes
    /\ of_digits_be 256 bytes = 18537
    /\ canonical_bytes bytes.
Proof.
  apply (wordBytes_denote (VString (js "0x4869")) 18537); [reflexivity|lia].
Defined.

(** X8: a word does not keep leading zero bytes.  Packing canonical bytes
    behind any number of zero bytes into a word and reading the word back
    gives the canonical bytes alone. *)
Theorem wordBytes_drops_leading_zeros (k : nat) (bs : list Z) :
  canonical_bytes bs ->
  wordBytes (VBigInt (of_digits_be 256 (repeat 0 k ++ bs))) = Return bs.
Proof.
  intro Hbs. rewrite of_digits_be_leading_zeros.
  assert (Hpos : 0 <= of_digits_be 256 bs).
  { destruct Hbs as [Hrange _]. unfold of_digits_be.
    assert (Hacc : forall acc, 0 <= acc ->
              0 <= fold_left (fun acc d => acc * 256 + d) bs acc).
    { induction Hrange as [|b bs Hb Hrange IH]; intros acc Hacc; [exact Hacc|].
      cbn [fold_left]. apply IH. lia. }
    apply Hacc. lia. }
  rewrite (wordBytes_be (VBigInt (of_digits_be 256 bs)) _ eq_refl Hpos).
  now rewrite be_bytes_of_digits.
Qed.

Lemma wordBytes_drops_leading_zeros_witness :
  wordBytes (VBigInt (of_digits_be 256 (repeat 0 2 ++ [72; 0; 105]))) = Return [72; 0; 105].
Proof.
  apply (wordBytes_drops_leading_zeros 2 [72; 0; 105]).
  split; [repeat constructor; lia|left; lia].
Defined.

Lemma digits_le_256_length (k : nat) :
  forall n, 0 <= n < 256 ^ Z.of_nat (S k) -> (length (digits_le 256 n) <= S k)%nat.
Proof.
  induction k as [|k IH]; intros n Hn; rewrite digits_le_256_unfold by lia.
  - change (256 ^ Z.of_nat 1) with 256 in Hn.
    assert (Hlt : (n <? 256) = true) by (apply Z.ltb_lt; lia).
    rewrite Hlt. cbn [length]. lia.
  - destruct (n <? 256) eqn:Hlt; [cbn [length]; lia|].
    apply Z.ltb_ge in Hlt. cbn [length]. apply le_n_S, IH.
    split; [apply Z.div_pos; lia|].
    apply Z.div_lt_upper_bound; [lia|].
    replace (Z.of_nat (S (S k))) with (Z.of_nat (S k) + 1) in Hn by lia.
    rewrite Z.pow_add_r, Z.pow_1_r in Hn by lia. lia.
Qed.

Lemma digits_le_nonempty (base n : Z) : (1 <= length (digits_le base n))%nat.
Proof.
  unfold digits_le. destruct (Z.to_nat (Z.log2 n)) as [|f]; cbn [digits_le_aux length].
  - lia.
  - destruct (n <? base); cbn [length]; lia.
Qed.

Lemma length_words_bounded (k : nat) (ws : list Z) :
  Forall (fun w => 0 <= w < 256 ^ Z.of_nat (S k)) ws ->
  (length ws <= length (flat_map be_bytes ws) <= S k * length ws)%nat.
Proof.
  induction 1 as [|w ws Hw Hws IH]; [cbn; lia|].
  cbn [flat_map]. rewrite length_app. cbn [length].
  assert (Hone : (1 <= length (be_bytes w) <= S k)%nat).
  { unfold be_bytes, digits_be. rewrite length_rev.
    split; [apply digits_le_nonempty|now apply digits_le_256_length]. }
  lia.
Qed.

(** X9: every word below [256 ^ k] contributes at least one byte and at most
    [k] bytes, so [data] of such words is reassembled into at least as many
    bytes as it has words and at most [k] times as many; for the 31-byte
    words of a Cairo byte array that is at most 31 per word. *)
Theorem collectWords_length (k : nat) (data : list jsvalue) (ws : list Z) :
  Forall2 (fun wordFelt w => BigInt wordFelt = Return w) data ws ->
  Forall (fun w => 0 <= w < 256 ^ Z.of_nat (S k)) ws ->
  exists bytes,
    collectWords data [] = Return bytes
    /\ (length data <= length bytes <= S k * length data)%nat.
Proof.
  intros Hdata Hws. exists (flat_map be_bytes ws).
  assert (Hwords : words_are data ws).
  { clear -Hdata Hws. induction Hdata as [|w n data ws Hw Hdata IH]; [constructor|].
    inversion Hws as [|? ? Hn Hws']; subst. cbv beta in Hn.
    constructor; [split; [exact Hw|lia]|now apply IH]. }
  split; [exact (collectWords_be data ws Hwords [])|].
  rewrite (Forall2_length Hdata). now apply length_words_bounded.
Qed.

Lemma collectWords_length_witness :
  exists bytes,
    collectWords [VBigInt 65; VString (js "0x4869")] [] = Return bytes
    /\ (length [VBigInt 65; VString (js "0x4869")] <= length bytes
        <= 31 * length [VBigInt 65; VString (js "0x4869")])%nat.
Proof.
  apply (collectWords_length 30 [VBigInt 65; VString (js "0x4869")] [65; 18537]).
  - repeat constructor.
  - repeat constructor; try lia; reflexivity.
Defined.

(** ** The reassembly loops *)




(** The two loops read the same words: they fail together, with the same
    error. *)
Lemma decodeWords_collectWords (H : Host) (data : list jsvalue) :
  forall result allBytes,
    match collectWords data allBytes with
    | Return _ => exists text, decodeWords H data result = Return text
    | Throw e => decodeWords H data result = Throw e
    end.
Proof.
  induction data as [|w rest IH]; intros result allBytes; cbn [collectWords decodeWords].
  - now exists result.
  - destruct (wordBytes w) as [bytes|e]; cbn [bind]; [apply IH|reflexivity].
Qed.

(** The text decoder's outcome, by that of the byte collection. *)
Lemma decodeCairoByteArray_by_collect (H : Host) (v : jsvalue) :
  isCairoByteArray v = true ->
  match collectBytes v with
  | Return _ => exists text, decodeCairoByteArray H v = Return (VString text)
  | Throw _ => decodeCairoByteArray H v = Return VNull
  end.
Proof.
  intro Hshape. unfold decodeCairoByteArray, collectBytes. rewrite Hshape. cbn [negb].
  pose proof (decodeWords_collectWords H (items_of (get (js "data") v)) [] []) as Hwords.
  destruct (collectWords (items_of (get (js "data") v)) []) as [allBytes|e].
  - destruct Hwords as [text Htext]. rewrite Htext. cbn [bind].
    destruct (pendingBytes (get (js "pending_word") v) (get (js "pending_word_len") v))
      as [[pending|]|e]; cbn [bind try_catch]; eauto.
  - rewrite Hwords. reflexivity.
Qed.

(** X11: [decodeCairoByteArray] returns [null] exactly when its argument
    has not the record shape or the byte collection of the content decoder
    fails on it; otherwise it returns a string.  So the two Cairo decoders
    fail on the same records. *)
Theorem decodeCairoByteArray_null_iff (H : Host) (v : jsvalue) :
  (decodeCairoByteArray H v = Return VNull
   <-> isCairoByteArray v = false \/ exists e, collectBytes v = Throw e)
  /\ (decodeCairoByteArray H v <> Return VNull ->
      exists text, decodeCairoByteArray H v = Return (VString text)).
Proof.
  destruct (isCairoByteArray v) eqn:Hshape.
  - pose proof (decodeCairoByteArray_by_collect H v Hshape) as Hcollect.
    destruct (collectBytes v) as [bytes|e].
    + destruct Hcollect as [text Htext]. rewrite Htext. split.
      * split; [discriminate|]. intros [Hfalse|[e He]]; discriminate.
      * eauto.
    + rewrite Hcollect. split.
      * split; [eauto|reflexivity].
      * intro Hne. now elim Hne.
  - assert (Hnull : decodeCairoByteArray H v = Return VNull).
    { unfold decodeCairoByteArray. now rewrite Hshape. }
    rewrite Hnull. split.
    + split; [now left|reflexivity].
    + intro Hne. now elim Hne.
Qed.

Lemma decodeCairoByteArray_null_iff_witness :
  exists text,
    decodeCairoByteArray Reference.host
      (byteArrayRecord [VBigInt 18537] (VBigInt 0) (VNumber (Int 0)))
    = Return (VString text).
Proof.
  apply (proj2 (decodeCairoByteArray_null_iff Reference.host
                  (byteArrayRecord [VBigInt 18537] (VBigInt 0) (VNumber (Int 0))))).
  vm_compute. discriminate.
Defined.


(** X13: when the pending word is taken, the length was read as a positive
    integer [n], the slice holds the first [n] bytes of the word (all of
    them if the word has fewer), each in [0, 255]. *)
Theorem pendingBytes_bound (pending_word pending_word_len : jsvalue) (slice : list Z) :
  pendingBytes pending_word pending_word_len = Return (Some slice) ->
  exists n bytes,
    parseInt pending_word_len = Return (Some n) /\ 0 < n
    /\ wordBytes pending_word = Return bytes
    /\ slice = firstn (Z.to_nat n) bytes
    /\ (length slice <= Z.to_nat n)%nat
    /\ (length slice <= length bytes)%nat
    /\ Forall (fun b => 0 <= b < 256) slice.
Proof.
  unfold pendingBytes.
  destruct (truthy pending_word && truthy pending_word_len); [|discriminate].
  destruct (parseInt pending_word_len) as [[n|]|e]; cbn [bind]; try discriminate.
  destruct (0 <? n) eqn:Hpos; [|discriminate]. apply Z.ltb_lt in Hpos.
  destruct (wordBytes pending_word) as [bytes|e] eqn:Hbytes; cbn [bind]; [|discriminate].
  intro Hslice. injection Hslice as <-.
  exists n, bytes. repeat split; try reflexivity; try lia.
  - apply firstn_le_length.
  - rewrite length_firstn. lia.
  - assert (Hrange : Forall (fun b => 0 <= b < 256) bytes).
    { unfold wordBytes in Hbytes.
      destruct (BigInt pending_word) as [m|e]; cbn [bind] in Hbytes; [|discriminate].
      unfold hexToBytes in Hbytes.
      exact (proj2 (hexToBytes_loop_length _ _ _ Hbytes)). }
    rewrite <- (firstn_skipn (Z.to_nat n) bytes) in Hrange.
    now apply Forall_app in Hrange.
Qed.

Lemma pendingBytes_bound_witness :
  exists n bytes,
    parseInt (VString (js "2")) = Return (Some n) /\ 0 < n
    /\ wordBytes (VBigInt 4276803) = Return bytes
    /\ [65; 66] = firstn (Z.to_nat n) bytes
    /\ (length [65; 66] <= Z.to_nat n)%nat
    /\ (length [65; 66] <= length bytes)%nat
    /\ Forall (fun b => 0 <= b < 256) [65; 66].
Proof.
  exact (pendingBytes_bound (VBigInt 4276803) (VString (js "2")) [65; 66] eq_refl).
Defined.

(** X14: on the reassembled bytes of a record, [decodeCairoByteArrayContent]
    and [decodeCborMetadata] give the same outcome exactly when the decoder
    accepts the bytes; when it rejects them the first returns their text and
    the second raises. *)
Theorem content_agrees_with_metadata (H : Host) (v : jsvalue) (bytes : list Z) :
  isCairoByteArray v = true ->
  collectBytes v = Return bytes ->
  (decodeCairoByteArrayContent H v = decodeCborMetadata H (VUint8Array bytes)
   <-> exists decoded, decodeCbor H bytes = Return decoded)
  /\ (forall e, decodeCbor H bytes = Throw e ->
        decodeCairoByteArrayContent H v = Return (VString (bytesToString H bytes))
        /\ decodeCborMetadata H (VUint8Array bytes)
           = Throw (Exn Error (js "CBOR decoding error: " ++ message e))).
Proof.
  intros Hshape Hbytes.
  rewrite (decodeCairoByteArrayContent_collect H v bytes Hshape Hbytes).
  assert (Hmeta : decodeCborMetadata H (VUint8Array bytes)
                  = try_catch (decodeCbor H bytes) rethrow) by reflexivity.
  rewrite Hmeta.
  destruct (decodeCbor H bytes) as [decoded|e]; cbn [try_catch]; split.
  - split; [eauto|reflexivity].
  - discriminate.
  - split; [discriminate|]. intros [decoded Hd]. discriminate Hd.
  - intros e' He'. injection He' as <-. now split.
Qed.

Lemma content_agrees_with_metadata_witness :
  decodeCairoByteArrayContent Reference.host
    (byteArrayRecord [VBigInt 6449726] (VBigInt 28526) (VNumber (Int 2)))
  = decodeCborMetadata Reference.host (VUint8Array [98; 106; 62; 111; 110])
  <-> exists decoded, decodeCbor Reference.host [98; 106; 62; 111; 110] = Return decoded.
Proof.
  exact (proj1 (content_agrees_with_metadata Reference.host
                  (byteArrayRecord [VBigInt 6449726] (VBigInt 28526) (VNumber (Int 2)))
                  [98; 106; 62; 111; 110] eq_refl eq_refl)).
Defined.

Lemma decodeWords_collected (H : Host) (data : list jsvalue) :
  (forall a b, bytesToString H (a ++ b) = bytesToString H a ++ bytesToString H b) ->
  forall allBytes bytes,
    collectWords data allBytes = Return bytes ->
    decodeWords H data (bytesToString H allBytes) = Return (bytesToString H bytes).
Proof.
  intro Hdist. induction data as [|w rest IH]; intros allBytes bytes Hcollect;
    cbn [collectWords decodeWords] in *.
  - now injection Hcollect as <-.
  - destruct (wordBytes w) as [chunk|e]; cbn [bind] in *; [|discriminate].
    rewrite <- Hdist. now apply IH.
Qed.

(** X15: where the text of a byte sequence is the concatenation of the texts
    of its parts (as with the character-code fallback of [bytesToString]),
    decoding word by word loses nothing: [decodeCairoByteArray] returns the
    text of exactly the bytes that [decodeCairoByteArrayContent] collects. *)
Theorem decodeCairoByteArray_text (H : Host) (v : jsvalue) (bytes : list Z) :
  (forall a b, bytesToString H (a ++ b) = bytesToString H a ++ bytesToString H b) ->
  isCairoByteArray v = true ->
  collectBytes v = Return bytes ->
  decodeCairoByteArray H v = Return (VString (bytesToString H bytes)).
Proof.
  intros Hdist Hshape Hcollect.
  assert (Hnil : bytesToString H [] = []).
  { pose proof (Hdist [] []) as Hd. cbn [app] in Hd.
    apply (f_equal (@length Z)) in Hd. rewrite length_app in Hd.
    destruct (bytesToString H []); [reflexivity|cbn [length] in Hd; lia]. }
  unfold decodeCairoByteArray, collectBytes in *. rewrite Hshape. cbn [negb].
  destruct (collectWords (items_of (get (js "data") v)) []) as [allBytes|e] eqn:Hwords;
    cbn [bind] in Hcollect; [|discriminate].
  pose proof (decodeWords_collected H _ Hdist [] allBytes Hwords) as Htext.
  rewrite Hnil in Htext. rewrite Htext. cbn [bind].
  destruct (pendingBytes (get (js "pending_word") v) (get (js "pending_word_len") v))
    as [[pending|]|e]; cbn [bind try_catch] in *; try discriminate.
  - injection Hcollect as <-. now rewrite Hdist.
  - now injection Hcollect as <-.
Qed.

Lemma decodeCairoByteArray_text_witness :
  decodeCairoByteArray legacy_host
    (byteArrayRecord [VBigInt 6449726] (VBigInt 28526) (VNumber (Int 2)))
  = Return (VString (bytesToString legacy_host [98; 106; 62; 111; 110])).
Proof.
  apply (decodeCairoByteArray_text legacy_host
           (byteArrayRecord [VBigInt 6449726] (VBigInt 28526) (VNumber (Int 2)))
           [98; 106; 62; 111; 110]).
  - intros a b. reflexivity.
  - reflexivity.
  - reflexivity.
Defined.

(** ** The service's metadata step *)

(** X16: the character-code fallback of [bytesToString] undoes
    [stringToUint8Array] exactly on the texts whose code units all lie below
    256; any other text comes back changed. *)
Theorem stringToUint8Array_round_trip (s : jsstring) :
  Forall (fun c => 0 <= c) s ->
  (fromCharCodes (stringToUint8Array s) = s <-> Forall (fun c => c < 256) s).
Proof.
  intro Hs. rewrite StringBytes.stringToUint8Array_map. unfold fromCharCodes.
  induction Hs as [|c s Hc Hs IH]; [split; [constructor|reflexivity]|].
  cbn [map]. split.
  - intro Heq. injection Heq as Hhead Htail. constructor; [|now apply IH].
    unfold toUint8 in Hhead. pose proof (Z.mod_pos_bound c 256 ltac:(lia)). lia.
  - intro Hlow. inversion Hlow as [|? ? Hc' Hlow']; subst. f_equal.
    + unfold toUint8. apply Z.mod_small. lia.
    + now apply IH.
Qed.

Lemma stringToUint8Array_round_trip_witness :
  fromCharCodes (stringToUint8Array (js "caf" ++ [233])) = js "caf" ++ [233]
  <-> Forall (fun c => c < 256) (js "caf" ++ [233]).
Proof.
  apply (stringToUint8Array_round_trip (js "caf" ++ [233])).
  repeat constructor; lia.
Defined.

(** X17: the metadata step of the service reads a field only through the
    low byte of each code unit: two fields that agree modulo 256 reach the
    decoder with the same bytes, so [getPointsDetails] cannot tell them
    apart, and [getCollectibleDetails] and [getTokenData] can only when the
    decoder fails, where the fallback keeps the field as it came. *)
Theorem metadata_step_low_bytes (H : Host) (s t : jsstring) :
  map toUint8 s = map toUint8 t ->
  decodePointsMetadata H s = decodePointsMetadata H t
  /\ (forall decoded, decodePointsMetadata H s = Return decoded ->
        decodeMetadataField H s = decoded /\ decodeMetadataField H t = decoded)
  /\ (forall e, decodePointsMetadata H s = Throw e ->
        decodeMetadataField H s = VObject [(js "metadata", VString s)]
        /\ decodeMetadataField H t = VObject [(js "metadata", VString t)]).
Proof.
  intro Hlow.
  assert (Hbytes : stringToUint8Array s = stringToUint8Array t).
  { now rewrite !StringBytes.stringToUint8Array_map. }
  unfold decodePointsMetadata, decodeMetadataField. rewrite <- Hbytes.
  split; [reflexivity|].
  split; intros x Hx; rewrite Hx; now split.
Qed.

Lemma metadata_step_low_bytes_witness :
  decodePointsMetadata Reference.host [353; 65] = decodePointsMetadata Reference.host [97; 65].
Proof.
  exact (proj1 (metadata_step_low_bytes Reference.host [353; 65] [97; 65] eq_refl)).
Defined.

(** X18: on a non-empty text that is no hex text and that the text encoder
    maps to its own code units (ASCII text), [decodeCborMetadata] hands the
    decoder the very bytes of the service's metadata step; the two differ
    only in what they do with a failure of the decoder: the utility raises
    it again, [getCollectibleDetails] and [getTokenData] fall back to the
    raw field. *)
Theorem metadata_step_agrees_on_text (H : Host) (item : jsstring) :
  item <> [] -> is_hex_string item = false ->
  TextEncoder_encode H item = stringToUint8Array item ->
  decodeCborMetadata H (VString item) = try_catch (decodePointsMetadata H item) rethrow
  /\ (forall decoded, decodeCborMetadata H (VString item) = Return decoded ->
        decodeMetadataField H item = decoded)
  /\ (forall e, decodeCborMetadata H (VString item) = Throw e ->
        decodeMetadataField H item = VObject [(js "metadata", VString item)]).
Proof.
  intros Hne Hhex Hencode.
  rewrite (decodeCborMetadata_text H item Hne Hhex), Hencode.
  unfold decodePointsMetadata, decodeMetadataField.
  split; [reflexivity|].
  destruct (decodeCbor H (stringToUint8Array item)) as [decoded|e]; cbn [try_catch];
    split; intros x Hx; try discriminate Hx.
  - now injection Hx as <-.
  - reflexivity.
Qed.

Lemma metadata_step_agrees_on_text_witness :
  decodeCborMetadata Reference.host (VString (js "dIron"))
  = try_catch (decodePointsMetadata Reference.host (js "dIron")) rethrow.
Proof.
  refine (proj1 (metadata_step_agrees_on_text Reference.host (js "dIron") _ eq_refl eq_refl)).
  discriminate.
Defined.

Lemma hexval_below (a : Z) : is_digit 16 a = true -> hexval a < a /\ 0 <= a < 256.
Proof.
  intro Ha. pose proof (hexval_range a Ha). apply is_digit_16_cases in Ha. lia.
Qed.

(** X19: on hex text the service and the utility never decode the same
    bytes: [decodeCborMetadata] reads the digit pairs, the metadata step of
    the service the character codes of the digits. *)
Theorem hex_text_bytes_differ (H : Host) (s : jsstring) :
  all_digits 16 s = true ->
  exists bytes,
    hexToBytes s = Return bytes
    /\ decodeCborMetadata H (VString s) = try_catch (decodeCbor H bytes) rethrow
    /\ decodePointsMetadata H s = decodeCbor H (stringToUint8Array s)
    /\ bytes <> stringToUint8Array s.
Proof.
  intro Hs. destruct (is_hex_string_digits s Hs) as [Hhex Hprefix].
  apply all_digits_forallb in Hs. destruct Hs as [Hne Hdigits].
  pose proof (hexToBytes_hex s Hdigits) as Hbytes.
  exists (pair_bytes (pad_even s)). split; [exact Hbytes|].
  split; [apply decodeCborMetadata_hex; [exact Hhex|now rewrite Hprefix]|].
  split; [reflexivity|].
  intro Heq.
  destruct s as [|a [|b rest]]; [now elim Hne| |].
  - rewrite StringBytes.stringToUint8Array_map in Heq.
    change (pair_bytes (pad_even [a])) with [hexval 48 * 16 + hexval a] in Heq.
    cbn [forallb] in Hdigits. apply andb_true_iff in Hdigits.
    destruct Hdigits as [Ha _]. pose proof (hexval_below a Ha) as [Hlt Hr].
    cbn [map] in Heq. unfold toUint8 in Heq. rewrite Z.mod_small in Heq by lia.
    injection Heq as Heq. change (hexval 48) with 0 in Heq. lia.
  - unfold hexToBytes in Hbytes.
    destruct (hexToBytes_loop_length _ _ _ Hbytes) as [Hlen _].
    rewrite div2_pad_even, Heq, StringBytes.stringToUint8Array_map, length_map in Hlen.
    cbn [length] in Hlen. rewrite Nat.div2_div in Hlen.
    pose proof (Nat.div_mod_eq (S (S (S (length rest)))) 2) as Hdiv.
    pose proof (Nat.mod_upper_bound (S (S (S (length rest)))) 2 ltac:(lia)).
    lia.
Qed.

Lemma hex_text_bytes_differ_witness :
  exists bytes,
    hexToBytes (js "a1") = Return bytes
    /\ decodeCborMetadata Reference.host (VString (js "a1"))
       = try_catch (decodeCbor Reference.host bytes) rethrow
    /\ decodePointsMetadata Reference.host (js "a1")
       = decodeCbor Reference.host (stringToUint8Array (js "a1"))
    /\ bytes <> stringToUint8Array (js "a1").
Proof.
  exact (hex_text_bytes_differ Reference.host (js "a1") eq_refl).
Defined.

(** ** [byteArrayToString] and [decodeCborMetadata] by input *)



(** X21: [decodeCborMetadata] stores the numbers of an array in a
    [Uint8Array] without a range check, so each is reduced modulo 256: an
    array of numbers decodes as the typed array of its low bytes, and two
    arrays that agree modulo 256 decode alike. *)
Theorem decodeCborMetadata_array_low_bytes (H : Host) (ns ms : list number) :
  decodeCborMetadata H (VArray (map VNumber ns))
  = decodeCborMetadata H (VUint8Array (map number_toUint8 ns))
  /\ (map number_toUint8 ns = map number_toUint8 ms ->
      decodeCborMetadata H (VArray (map VNumber ns))
      = decodeCborMetadata H (VArray (map VNumber ms))).
Proof.
  assert (Hform : forall l, decodeCborMetadata H (VArray (map VNumber l))
                            = decodeCborMetadata H (VUint8Array (map number_toUint8 l))).
  { intro l. unfold decodeCborMetadata. cbn [truthy negb convertInput].
    assert (Hall : forallb (isByteItem H) (map VNumber l) = true).
    { induction l as [|n l IH]; [reflexivity|exact IH]. }
    rewrite Hall. cbn [bind]. rewrite map_map. reflexivity. }
  split; [apply Hform|]. intro Hsame. now rewrite !Hform, Hsame.
Qed.

Lemma decodeCborMetadata_array_low_bytes_witness :
  decodeCborMetadata Reference.host (VArray (map VNumber [Int 356; Int (-183)]))
  = decodeCborMetadata Reference.host (VArray (map VNumber [Int 100; Int 73])).
Proof.
  exact (proj2 (decodeCborMetadata_array_low_bytes Reference.host
                  [Int 356; Int (-183)] [Int 100; Int 73]) eq_refl).
Defined.
